(** * Shallow embedding of the prefix-list reconciliation engine of cf-lambda.py

    The EC2 client is modelled as a record of oracles: each provider call
    receives the history of the calls made so far and answers either with a
    response or with a [ClientError] message.  The engine itself runs in a
    state-and-error monad whose state is that history (the call trace). *)

From Stdlib Require Import String Ascii List ZArith QArith Bool Lia Sorted Permutation.
Import ListNotations.
Open Scope string_scope.
Open Scope Z_scope.
Open Scope list_scope.

(** ** Provider data, as boto3 returns it *)

(** A prefix-list record.  The seven keys the code reads are typed fields
    ([None] stands both for an absent key and for a [None] value);
    [Extra] holds the other keys a raw response may carry. *)
Record pl := mkPL {
  PrefixListId : option string;
  PrefixListName : option string;
  MaxEntries : option Z;
  OwnerId : option string;
  Version : option Z;
  State : option string;
  PrefixListArn : option string;
  Extra : list (string * string)
}.

(** One page of [describe_managed_prefix_lists] / [describe_prefix_lists]. *)
Record page := mkPage {
  ManagedPrefixLists : option (list pl);
  PrefixLists : option (list pl);
  NextToken : option string
}.

Record entry := mkEntry { Cidr : option string; EntryDescription : option string }.

(** One page of [get_managed_prefix_list_entries]. *)
Record entries_page := mkEntriesPage {
  Entries : option (list entry);
  EntriesNextToken : option string
}.

(** [{"Cidr": c, "Description": d}] of an add batch. *)
Record add_entry := mkAdd { AddCidr : string; AddDescription : string }.

(** The keyword arguments of [modify_managed_prefix_list]; a remove entry
    [{"Cidr": c}] is its CIDR. *)
Record modify_args := mkModify {
  MPrefixListId : string;
  MCurrentVersion : Z;
  MAddEntries : option (list add_entry);
  MRemoveEntries : option (list string)
}.

(** The provider calls (and sleeps) the engine performs, tagged with the
    region of the client that issued them. *)
Inductive call :=
| CDescribeManaged (region : string) (ids : option (list string)) (token : option string)
| CDescribePrefix (region : string) (token : option string)
| CGetEntries (region : string) (id : string) (token : option string)
| CModify (region : string) (args : modify_args)
| CSleep (attempt : nat).  (* time.sleep(backoff * 2 ** attempt) *)

Definition trace := list call.

(** A provider answer: a response, or a botocore [ClientError] with its
    message. *)
Inductive outcome (A : Type) := Resp (a : A) | Fail (msg : string).
Arguments Resp {A} a.
Arguments Fail {A} msg.

(** The EC2 client. *)
Record client := mkClient {
  region_name : string;
  describe_managed_prefix_lists : trace -> option (list string) -> option string -> outcome page;
  describe_prefix_lists : trace -> option string -> outcome page;
  get_managed_prefix_list_entries : trace -> string -> option string -> outcome entries_page;
  modify_managed_prefix_list : trace -> modify_args -> outcome Z  (* resp["PrefixList"]["Version"] *)
}.

(** ** Exceptions and the engine monad *)

(** A prefix-list preview item [{"Id", "Name", "Owner"}]. *)
Definition preview_item := (option string * option string * option string)%type.

Inductive exn :=
| ClientError (msg : string)
  (** RuntimeError "Prefix list not found after {attempts} attempts ..." *)
| NotFoundError (attempts : nat) (acct region : string) (id : option string)
    (name : option string) (preview : list preview_item)
  (** RuntimeError "Desired entries ({n}) exceed MaxEntries ({m}) for {id} ..." *)
| CapacityError (desired : Z) (max_entries : Z) (id : string)
  (** the page loop asked for more than [PAGE_FUEL] pages *)
| FuelOut.

Inductive res (A : Type) := Ok (a : A) | Err (e : exn).
Arguments Ok {A} a.
Arguments Err {A} e.

Definition M (A : Type) := trace -> res A * trace.

Definition ret {A} (a : A) : M A := fun tr => (Ok a, tr).
Definition raise {A} (e : exn) : M A := fun tr => (Err e, tr).
Definition bind {A B} (m : M A) (f : A -> M B) : M B :=
  fun tr => match m tr with
            | (Ok a, tr') => f a tr'
            | (Err e, tr') => (Err e, tr')
            end.

Notation "x <- m ;; k" := (bind m (fun x => k))
  (at level 61, m at next level, right associativity).

(** [try: m except ClientError as e: h(str(e))] *)
Definition try_client {A} (m : M A) (h : string -> M A) : M A :=
  fun tr => match m tr with
            | (Err (ClientError msg), tr') => h msg tr'
            | r => r
            end.

(** Issue one provider call: the oracle sees the history before the call. *)
Definition ec2_call {A} (c : call) (o : trace -> outcome A) : M A :=
  fun tr => match o tr with
            | Resp a => (Ok a, tr ++ [c])
            | Fail msg => (Err (ClientError msg), tr ++ [c])
            end.

(** Pagination loops run until the provider returns no continuation token;
    the embedding bounds them by [PAGE_FUEL] pages. *)
Definition PAGE_FUEL : nat := 1000.

(** ** Python truthiness *)

Definition str_truthy (s : string) : bool := negb (String.eqb s "").
Definition ostr_truthy (o : option string) : bool :=
  match o with Some s => str_truthy s | None => false end.

(** [x or d] on an optional integer. *)
Definition z_or (o : option Z) (d : Z) : Z :=
  match o with Some z => if z =? 0 then d else z | None => d end.

(** [x or d] on an optional string. *)
Definition str_or (o : option string) (d : string) : string :=
  match o with Some s => if str_truthy s then s else d | None => d end.

(** [l or d] on an optional list. *)
Definition list_or {A} (o : option (list A)) (d : list A) : list A :=
  match o with Some ((_ :: _) as l) => l | _ => d end.

Definition opt_str_eqb (o : option string) (s : string) : bool :=
  match o with Some t => String.eqb t s | None => false end.

Definition str_mem (s : string) (l : list string) : bool :=
  existsb (String.eqb s) l.

(** time.sleep(backoff * (2 ** i)) *)
Definition sleep (i : nat) : M unit := fun tr => (Ok tt, tr ++ [CSleep i]).

(** ** Prefix list discovery (lines 110-199) *)

Definition has_id (id : string) (p : pl) : bool := opt_str_eqb (PrefixListId p) id.

(** [_pls]: [resp.get("ManagedPrefixLists") or resp.get("PrefixLists") or []] *)
Definition _pls (resp : page) : list pl :=
  list_or (ManagedPrefixLists resp) (list_or (PrefixLists resp) []).

Definition _describe_managed_pls (ec2 : client) (ids : option (list string))
    (next_token : option string) : M page :=
  let kw_ids := match ids with Some ((_ :: _) as l) => Some l | _ => None end in
  let kw_tok := if ostr_truthy next_token then next_token else None in
  try_client
    (ec2_call (CDescribeManaged (region_name ec2) kw_ids kw_tok)
       (fun tr => describe_managed_prefix_lists ec2 tr kw_ids kw_tok))
    (fun _ => ret (mkPage (Some []) None None)).

Definition _describe_prefix_pls (ec2 : client) (next_token : option string) : M page :=
  let kw_tok := if ostr_truthy next_token then next_token else None in
  try_client
    (ec2_call (CDescribePrefix (region_name ec2) kw_tok)
       (fun tr => describe_prefix_lists ec2 tr kw_tok))
    (fun _ => ret (mkPage None (Some []) None)).

(** The merge state of [_list_all_pls]: the [seen] set and the [out] list. *)
Definition merge_state := (list string * list pl)%type.

(** Body of the first loop of [_list_all_pls]: raw records, first seen wins. *)
Definition absorb_managed (st : merge_state) (p : pl) : merge_state :=
  let '(seen, out) := st in
  match PrefixListId p with
  | Some pid =>
      if str_truthy pid && negb (str_mem pid seen) then (pid :: seen, out ++ [p]) else st
  | None => st
  end.

(** The record built for a [describe_prefix_lists] result (lines 151-159). *)
Definition normalize_pl (pid : string) (p : pl) : pl :=
  mkPL (Some pid) (PrefixListName p) (MaxEntries p) (OwnerId p) (Version p)
       (State p) (PrefixListArn p) [].

(** Body of the second loop of [_list_all_pls]. *)
Definition absorb_prefix (st : merge_state) (p : pl) : merge_state :=
  let '(seen, out) := st in
  match PrefixListId p with
  | Some pid =>
      if str_truthy pid && negb (str_mem pid seen)
      then (pid :: seen, out ++ [normalize_pl pid p]) else st
  | None => st
  end.

(** [while True: resp = describe(token); for pl in _pls(resp): ...;
    token = resp.get("NextToken"); if not token: break] *)
Fixpoint paginate (describe : option string -> M page)
    (absorb : merge_state -> pl -> merge_state)
    (fuel : nat) (token : option string) (st : merge_state) : M merge_state :=
  match fuel with
  | O => raise FuelOut
  | S f =>
      resp <- describe token ;;
      let st' := fold_left absorb (_pls resp) st in
      if ostr_truthy (NextToken resp)
      then paginate describe absorb f (NextToken resp) st'
      else ret st'
  end.

Definition _list_all_pls (ec2 : client) : M (list pl) :=
  st1 <- paginate (_describe_managed_pls ec2 None) absorb_managed PAGE_FUEL None ([], []) ;;
  st2 <- paginate (_describe_prefix_pls ec2) absorb_prefix PAGE_FUEL None st1 ;;
  ret (snd st2).

(** The merge [_list_all_pls] performs, over all records the first API
    returned ([l1]) and all records the second API returned ([l2]). *)
Definition merge_discovery (l1 l2 : list pl) : list pl :=
  snd (fold_left absorb_prefix l2 (fold_left absorb_managed l1 ([], []))).

Definition _find_pl (ec2 : client) (prefix_list_id fallback_name : option string)
    : M (option pl) :=
  direct <- (if ostr_truthy prefix_list_id
             then resp <- _describe_managed_pls ec2
                            (option_map (fun s => [s]) prefix_list_id) None ;;
                  ret (hd_error (_pls resp))
             else ret None) ;;
  match direct with
  | Some p => ret (Some p)
  | None =>
      all1 <- _list_all_pls ec2 ;;
      match find (fun p => match prefix_list_id with
                           | Some id => str_truthy id && opt_str_eqb (PrefixListId p) id
                           | None => false
                           end) all1 with
      | Some p => ret (Some p)
      | None =>
          match fallback_name with
          | Some name =>
              if str_truthy name
              then all2 <- _list_all_pls ec2 ;;
                   ret (find (fun p => opt_str_eqb (PrefixListName p) name) all2)
              else ret None
          | None => ret None
          end
      end
  end.

(** The [for i in range(attempts)] loop of [_describe_pl_with_retries]:
    [inl pl] when found, [inr last_seen] when the attempts are exhausted. *)
Fixpoint retry_loop (ec2 : client) (prefix_list_id fallback_name : option string)
    (i remaining : nat) (last_seen : list pl) : M (pl + list pl) :=
  match remaining with
  | O => ret (inr last_seen)
  | S r =>
      found <- _find_pl ec2 prefix_list_id fallback_name ;;
      match found with
      | Some p => ret (inl p)
      | None =>
          seen <- _list_all_pls ec2 ;;
          _ <- sleep i ;;
          retry_loop ec2 prefix_list_id fallback_name (S i) r seen
      end
  end.

Definition preview_of (p : pl) : preview_item := (PrefixListId p, PrefixListName p, OwnerId p).

Definition _describe_pl_with_retries (acct : string) (ec2 : client)
    (prefix_list_id fallback_name : option string) (attempts : nat) : M pl :=
  r <- retry_loop ec2 prefix_list_id fallback_name 0 attempts [] ;;
  match r with
  | inl p => ret p
  | inr last_seen =>
      raise (NotFoundError attempts acct (region_name ec2) prefix_list_id fallback_name
               (map preview_of (firstn 20 last_seen)))
  end.

(** ** Python sets of strings and [sorted] *)

(** [s.add(x)] on a set kept as a duplicate-free list. *)
Definition set_add (l : list string) (x : string) : list string :=
  if str_mem x l then l else l ++ [x].

(** [set(xs)] *)
Definition py_set (xs : list string) : list string := fold_left set_add xs [].

(** [a - b] on sets *)
Definition set_diff (a b : list string) : list string :=
  filter (fun x => negb (str_mem x b)) a.

Fixpoint insert_sorted (x : string) (l : list string) : list string :=
  match l with
  | [] => [x]
  | y :: l' => if String.leb x y then x :: l else y :: insert_sorted x l'
  end.

(** [sorted(xs)] on strings (lexicographic order of the characters). *)
Definition py_sorted (xs : list string) : list string := fold_right insert_sorted [] xs.

(** ** Entries and updates (lines 202-310) *)

Definition DESCR_DEFAULT : string := "Cloudflare IP".
Definition MAX_BATCH : nat := 80.
Definition PL_DESCR_TRUNC : nat := 100.
Definition LOCATE_ATTEMPTS : nat := 8.

(** The entry pagination loop of [get_pl_entries] (lines 208-221). *)
Fixpoint entries_loop (ec2 : client) (prefix_list_id : string) (fuel : nat)
    (token : option string) (have : list string) : M (list string) :=
  match fuel with
  | O => raise FuelOut
  | S f =>
      let tok := if ostr_truthy token then token else None in
      resp <- ec2_call (CGetEntries (region_name ec2) prefix_list_id tok)
                (fun tr => get_managed_prefix_list_entries ec2 tr prefix_list_id tok) ;;
      let have' := fold_left (fun h e => match Cidr e with
                                         | Some c => if str_truthy c then set_add h c else h
                                         | None => h
                                         end)
                             (list_or (Entries resp) []) have in
      if ostr_truthy (EntriesNextToken resp)
      then entries_loop ec2 prefix_list_id f (EntriesNextToken resp) have'
      else ret have'
  end.

Definition get_pl_entries (acct : string) (ec2 : client) (prefix_list_id : string)
    (fallback_name : option string) : M (Z * list string * Z * string) :=
  p <- _describe_pl_with_retries acct ec2 (Some prefix_list_id) fallback_name LOCATE_ATTEMPTS ;;
  let version := z_or (Version p) 1 in
  let max_entries := z_or (MaxEntries p) 0 in
  let owner := str_or (OwnerId p) "" in
  have <- entries_loop ec2 prefix_list_id PAGE_FUEL None [] ;;
  ret (version, have, max_entries, owner).

(** The slices [seq[i:i+n]], [seq[i+n:i+2n]], ... of [_chunks]; [fuel]
    bounds the number of slices. *)
Fixpoint chunks_go {A} (n fuel : nat) (l : list A) : list (list A) :=
  match fuel, l with
  | _, [] => []
  | O, _ => [l]
  | S f, _ => firstn n l :: chunks_go n f (skipn n l)
  end.

(** [_chunks(seq, n)]: [seq[i:i+n] for i in range(0, len(seq), n)] *)
Definition _chunks {A} (n : nat) (l : list A) : list (list A) := chunks_go n (length l) l.

Definition lower_ascii (c : ascii) : ascii :=
  let n := nat_of_ascii c in
  if (65 <=? n)%nat && (n <=? 90)%nat then ascii_of_nat (n + 32) else c.

(** [s.lower()] on ASCII text *)
Fixpoint lower (s : string) : string :=
  match s with
  | EmptyString => EmptyString
  | String c s' => String (lower_ascii c) (lower s')
  end.

(** [sub in s] *)
Fixpoint contains (sub s : string) : bool :=
  String.prefix sub s ||
  match s with
  | EmptyString => false
  | String _ s' => contains sub s'
  end.

(** [if "CurrentVersion" in msg or "version" in msg.lower()] *)
Definition is_version_conflict (msg : string) : bool :=
  contains "CurrentVersion" msg || contains "version" (lower msg).

(** [if batch: kwargs[...] = batch] *)
Definition nonempty {A} (b : option (list A)) : option (list A) :=
  match b with Some ((_ :: _) as l) => Some l | _ => None end.

(** The nested function [_modify] of [apply_delta] (lines 274-292); the
    closure variables are explicit parameters. *)
Definition _modify (acct : string) (ec2 : client) (prefix_list_id : string)
    (fallback_name : option string)
    (add_batch : option (list add_entry)) (rem_batch : option (list string))
    (version_hint : Z) : M Z :=
  let kwargs := mkModify prefix_list_id version_hint (nonempty add_batch) (nonempty rem_batch) in
  try_client
    (ec2_call (CModify (region_name ec2) kwargs)
       (fun tr => modify_managed_prefix_list ec2 tr kwargs))
    (fun msg =>
       if is_version_conflict msg
       then fresh <- _describe_pl_with_retries acct ec2 (Some prefix_list_id) fallback_name
                       LOCATE_ATTEMPTS ;;
            let fresh_ver := z_or (Version fresh) version_hint in
            let kwargs' := mkModify prefix_list_id fresh_ver (nonempty add_batch)
                             (nonempty rem_batch) in
            ec2_call (CModify (region_name ec2) kwargs')
              (fun tr => modify_managed_prefix_list ec2 tr kwargs')
       else raise (ClientError msg)).

(** The [while ai < len(add_batches) or ri < len(rem_batches)] loop
    (lines 294-300); [fuel] is [max (len add_batches) (len rem_batches)],
    the exact number of iterations. *)
Fixpoint batch_loop (acct : string) (ec2 : client) (prefix_list_id : string)
    (fallback_name : option string)
    (add_batches : list (list add_entry)) (rem_batches : list (list string))
    (fuel ai ri : nat) (version : Z) : M Z :=
  match fuel with
  | O => ret version
  | S f =>
      if (ai <? length add_batches)%nat || (ri <? length rem_batches)%nat
      then
        let add_batch := if (ai <? length add_batches)%nat then nth_error add_batches ai else None in
        let rem_batch := if (ri <? length rem_batches)%nat then nth_error rem_batches ri else None in
        version' <- _modify acct ec2 prefix_list_id fallback_name add_batch rem_batch version ;;
        let ai' := if (ai <? length add_batches)%nat then S ai else ai in
        let ri' := if (ri <? length rem_batches)%nat then S ri else ri in
        batch_loop acct ec2 prefix_list_id fallback_name add_batches rem_batches f ai' ri' version'
      else ret version
  end.

(** The text of a result: its ["note"] or ["summary"] key. *)
Inductive result_text :=
| NoteForeignOwner (owner account_owner : string)  (* "OWNER={owner} != {account_owner}. ..." *)
| SummaryUpToDate (id : string) (n : Z)              (* "{id}: up to date ({n} entries)" *)
| SummaryChanged (id : string) (nadd nrem : Z) (version : Z). (* "{id}: +{a}/-{r} -> v{v}" *)

(** The dictionary [apply_delta] returns. *)
Record result := mkResult {
  rid : string;
  from_version : Z;
  to_version : Z;
  added : list string;
  removed : list string;
  changed : bool;
  text : result_text
}.

Definition zlen {A} (l : list A) : Z := Z.of_nat (length l).

(** [to_add = sorted(want - have)], [to_remove = sorted(have - want)] *)
Definition delta (want have : list string) : list string * list string :=
  (py_sorted (set_diff want have), py_sorted (set_diff have want)).

(** [(desc or DESCR_DEFAULT)[:PL_DESCR_TRUNC]] *)
Definition entry_description (desc : string) : string :=
  substring 0 PL_DESCR_TRUNC (str_or (Some desc) DESCR_DEFAULT).

(** [apply_delta] after its first line (the read of the entries). *)
Definition apply_delta_body (acct : string) (ec2 : client) (prefix_list_id desc : string)
    (want_list : list string) (fallback_name : option string) (account_owner : string)
    (current_version : Z) (have : list string) (max_entries : Z) (owner : string) : M result :=
  if str_truthy owner && negb (String.eqb owner account_owner)
  then ret (mkResult prefix_list_id current_version current_version [] [] false
              (NoteForeignOwner owner account_owner))
  else
    let want := py_set want_list in
    if negb (max_entries =? 0) && (zlen want >? max_entries)
    then raise (CapacityError (zlen want) max_entries prefix_list_id)
    else
      let '(to_add, to_remove) := delta want have in
      match to_add, to_remove with
      | [], [] =>
          ret (mkResult prefix_list_id current_version current_version [] [] false
                 (SummaryUpToDate prefix_list_id (zlen have)))
      | _, _ =>
          let d := entry_description desc in
          let adds := map (fun c => mkAdd c d) to_add in
          let rems := to_remove in
          let add_batches := _chunks MAX_BATCH adds in
          let rem_batches := _chunks MAX_BATCH rems in
          version <- batch_loop acct ec2 prefix_list_id fallback_name add_batches rem_batches
                       (Nat.max (length add_batches) (length rem_batches)) 0 0 current_version ;;
          ret (mkResult prefix_list_id current_version version to_add to_remove
                 (negb (match to_add, to_remove with [], [] => true | _, _ => false end))
                 (SummaryChanged prefix_list_id (zlen to_add) (zlen to_remove) version))
      end.

Definition apply_delta (acct : string) (ec2 : client) (prefix_list_id desc : string)
    (want_list : list string) (fallback_name : option string) (account_owner : string)
    : M result :=
  r <- get_pl_entries acct ec2 prefix_list_id fallback_name ;;
  let '(current_version, have, max_entries, owner) := r in
  apply_delta_body acct ec2 prefix_list_id desc want_list fallback_name account_owner
    current_version have max_entries owner.

(** ** Lambda entry (lines 347-395) *)

(** The environment the handler reads. *)
Record config := mkConfig {
  DESCRIPTION : option string;
  PL_V4_ID : option string;
  PL_V6_ID : option string;
  PL_V4_NAME : option string;
  PL_V6_NAME : option string;
  PL_V4_REGION : option string;
  PL_V6_REGION : option string
}.

(** The process globals: [ACCOUNT], [DEFAULT_REGION] and the session's
    clients per region ([SESSION.client("ec2", region_name=r)]). *)
Record globals := mkGlobals {
  ACCOUNT : string;
  DEFAULT_REGION : string;
  session_client : string -> client
}.

Definition make_ec2 (g : globals) (region : string) : client :=
  if str_truthy region && negb (String.eqb region (DEFAULT_REGION g))
  then session_client g region
  else session_client g (DEFAULT_REGION g).

Record summary := mkSummary {
  account : string;
  default_region : string;
  used_regions : option string * option string;
  counts : Z * Z;
  summary_result : list result
}.

(** [c.isspace()], a character of a configuration string being read as
    a code point below 256: \t, \n, \v, \f, \r, the separators
    \x1c-\x1f, space, U+0085 and U+00A0. *)
Definition is_space (c : ascii) : bool :=
  let n := nat_of_ascii c in
  ((9 <=? n)%nat && (n <=? 13)%nat) || ((28 <=? n)%nat && (n <=? 32)%nat) ||
  (n =? 133)%nat || (n =? 160)%nat.

Fixpoint lstrip (s : string) : string :=
  match s with
  | EmptyString => EmptyString
  | String c s' => if is_space c then lstrip s' else s
  end.

(** [s.strip()] *)
Definition strip (s : string) : string :=
  string_of_list_ascii (rev (list_ascii_of_string (lstrip
    (string_of_list_ascii (rev (list_ascii_of_string (lstrip s))))))).

(** [s.strip()[:PL_DESCR_TRUNC]] *)
Definition strip_trunc (s : string) : string := substring 0 PL_DESCR_TRUNC (strip s).

(** [handler] from the reconciliation on; [v4], [v6] are the CIDR lists
    [fetch_cloudflare_ips()] returned (the feed is an external collaborator),
    and the Slack notification, which only prints, is left out. *)
Definition handler (g : globals) (cfg : config) (v4 v6 : list string) : M summary :=
  let desc := strip_trunc (str_or (DESCRIPTION cfg) DESCR_DEFAULT) in
  let acct := ACCOUNT g in
  let r4 := str_or (PL_V4_REGION cfg) (DEFAULT_REGION g) in
  let r6 := str_or (PL_V6_REGION cfg) (DEFAULT_REGION g) in
  let use4 := ostr_truthy (PL_V4_ID cfg) || ostr_truthy (PL_V4_NAME cfg) in
  let use6 := ostr_truthy (PL_V6_ID cfg) || ostr_truthy (PL_V6_NAME cfg) in
  res4 <- (if use4
           then r <- apply_delta (ACCOUNT g) (make_ec2 g r4) (str_or (PL_V4_ID cfg) "") desc v4
                       (PL_V4_NAME cfg) acct ;; ret [r]
           else ret []) ;;
  res6 <- (if use6
           then r <- apply_delta (ACCOUNT g) (make_ec2 g r6) (str_or (PL_V6_ID cfg) "") desc v6
                       (PL_V6_NAME cfg) acct ;; ret [r]
           else ret []) ;;
  ret (mkSummary acct (DEFAULT_REGION g)
         (if use4 then Some r4 else None, if use6 then Some r6 else None)
         (zlen v4, zlen v6) (res4 ++ res6)).

(** ** Concrete providers, to run the embedding on *)

Module Demo.

Definition digit (n : nat) : string := String (ascii_of_nat (48 + n)) EmptyString.

(** ["10.<n>.0.0/16"] for [n < 1000] *)
Definition cidr (n : nat) : string :=
  "10." ++ digit (n / 100) ++ digit (n / 10 mod 10) ++ digit (n mod 10) ++ ".0.0/16".

Definition cidrs (n : nat) : list string := map cidr (seq 0 n).

Definition mk_pl (id name : string) (max : option Z) (owner : string) (ver : option Z) : pl :=
  mkPL (Some id) (Some name) max (Some owner) ver (Some "create-complete") None [].

(** A region whose managed prefix lists are [pls], whose entries are
    [entries], and whose modify call answers with [modify]; the legacy
    [describe_prefix_lists] API lists nothing. *)
Definition provider (region : string) (pls : list pl)
    (entries : string -> option (list string)) (modify : trace -> modify_args -> outcome Z)
    : client :=
  mkClient region
    (fun _ ids _ => match ids with
                    | Some [id] => Resp (mkPage (Some (filter (has_id id) pls)) None None)
                    | _ => Resp (mkPage (Some pls) None None)
                    end)
    (fun _ _ => Resp (mkPage None (Some []) None))
    (fun _ id _ => match entries id with
                   | Some l => Resp (mkEntriesPage (Some (map (fun c => mkEntry (Some c) None) l)) None)
                   | None => Fail "An error occurred (InvalidPrefixListID.NotFound)"
                   end)
    modify.

(** A modify call that succeeds and bumps the version. *)
Definition bump (_ : trace) (a : modify_args) : outcome Z := Resp (MCurrentVersion a + 1).

(** One region with an owned list [pl-4] (at most 2 entries, version 3),
    a list [pl-aws] of another owner, and an owned list [pl-0] whose record
    carries neither [Version] nor [MaxEntries]. *)
Definition east : client :=
  provider "us-east-1"
    [mk_pl "pl-4" "cf-v4" (Some 2%Z) "111" (Some 3%Z);
     mk_pl "pl-aws" "aws-managed" (Some 10%Z) "AWS" (Some 7%Z);
     mk_pl "pl-0" "cf-v0" None "111" None]
    (fun id => if String.eqb id "pl-4" then Some ["10.0.0.0/8"]
               else if String.eqb id "pl-aws" then Some ["1.1.1.0/24"]
               else if String.eqb id "pl-0" then Some []
               else None)
    bump.

(** A region where every discovery call is refused. *)
Definition denied : client :=
  mkClient "us-east-1"
    (fun _ _ _ => Fail "An error occurred (UnauthorizedOperation)")
    (fun _ _ => Fail "An error occurred (UnauthorizedOperation)")
    (fun _ _ _ => Fail "An error occurred (UnauthorizedOperation)")
    bump.

(** A region with no prefix list at all. *)
Definition empty_region : client := provider "us-east-1" [] (fun _ => None) bump.

(** A region with two owned lists, [pl-4] and [pl-6], where reading the
    entries of [pl-4] is throttled. *)
Definition throttled : client :=
  let base := provider "us-east-1"
                [mk_pl "pl-4" "cf-v4" None "111" (Some 3%Z);
                 mk_pl "pl-6" "cf-v6" None "111" (Some 5%Z)]
                (fun id => if String.eqb id "pl-4" then Some ["10.0.0.0/8"]
                           else if String.eqb id "pl-6" then Some []
                           else None)
                bump in
  mkClient (region_name base) (describe_managed_prefix_lists base) (describe_prefix_lists base)
    (fun tr id token => if String.eqb id "pl-4"
                        then Fail "An error occurred (RequestLimitExceeded)"
                        else get_managed_prefix_list_entries base tr id token)
    (modify_managed_prefix_list base).

(** A region whose first page of managed lists holds [pl-4] and points to a
    second page, whose read is refused; the legacy API lists [pl-6]. *)
Definition flaky : client :=
  mkClient "us-east-1"
    (fun _ _ tok => match tok with
                    | None => Resp (mkPage (Some [mk_pl "pl-4" "cf-v4" None "111" (Some 3%Z)])
                                           None (Some "p2"))
                    | Some _ => Fail "An error occurred (RequestLimitExceeded)"
                    end)
    (fun _ _ => Resp (mkPage None (Some [mk_pl "pl-6" "cf-v6" None "111" (Some 5%Z)]) None))
    (fun _ _ _ => Fail "An error occurred (InvalidPrefixListID.NotFound)")
    bump.

(** Account ["111"] in [us-east-1], every region served by [throttled]. *)
Definition throttled_globals : globals := mkGlobals "111" "us-east-1" (fun _ => throttled).

(** Both targets configured by id, in the default region. *)
Definition both_targets : config :=
  mkConfig None (Some "pl-4") (Some "pl-6") None None None None.

End Demo.

(** * The rest of the lambda: environment flags, the Cloudflare feed and
    the Slack report *)

(** ** Python text and bytes

    Outside the reconciliation engine, a Python [str] is modelled as the
    list of its code points and a [bytes] value as the list of its byte
    values.  A [string] of the engine (an identifier, a CIDR) is read as the
    code points of its characters, by [txt]. *)

Definition pystr := list Z.
Definition pybytes := list Z.

Definition txt (s : string) : pystr :=
  map (fun c => Z.of_nat (nat_of_ascii c)) (list_ascii_of_string s).

Fixpoint pystr_eqb (a b : pystr) : bool :=
  match a, b with
  | [], [] => true
  | x :: a', y :: b' => (x =? y) && pystr_eqb a' b'
  | _, _ => false
  end.

Definition nonnil {A} (l : list A) : bool := match l with [] => false | _ => true end.

(** [c.isspace()]: the code points Python's [str.strip()] removes. *)
Definition py_isspace (c : Z) : bool :=
  ((9 <=? c) && (c <=? 13)) || ((28 <=? c) && (c <=? 32)) || (c =? 133) || (c =? 160) ||
  (c =? 5760) || ((8192 <=? c) && (c <=? 8202)) || (c =? 8232) || (c =? 8233) ||
  (c =? 8239) || (c =? 8287) || (c =? 12288).

Fixpoint py_lstrip (s : pystr) : pystr :=
  match s with
  | [] => []
  | c :: s' => if py_isspace c then py_lstrip s' else s
  end.

(** [s.strip()] *)
Definition py_strip (s : pystr) : pystr := rev (py_lstrip (rev (py_lstrip s))).

(** ["sep".join(items)] *)
Fixpoint join (sep : pystr) (items : list pystr) : pystr :=
  match items with
  | [] => []
  | [x] => x
  | x :: items' => x ++ sep ++ join sep items'
  end.

(** The decimal digits of [n >= 0], [fuel] bounding their number. *)
Fixpoint digits_go (fuel : nat) (n : Z) (acc : pystr) : pystr :=
  match fuel with
  | O => acc
  | S f =>
      let acc' := (48 + n mod 10) :: acc in
      if n <? 10 then acc' else digits_go f (n / 10) acc'
  end.

Definition digits (n : Z) : pystr := digits_go (S (Z.to_nat (Z.log2 n))) n [].

(** [str(n)] (and [f"{n}"]) on an integer *)
Definition py_str_int (n : Z) : pystr := if n <? 0 then 45 :: digits (- n) else digits n.

(** [seq[:k]] *)
Definition py_take {A} (l : list A) (k : Z) : list A :=
  if 0 <=? k then firstn (Z.to_nat k) l
  else firstn (Z.to_nat (Z.of_nat (length l) + k)) l.

(** ** [env_bool] (lines 33-37) *)

(** [c.lower()] on the ASCII capitals. *)
Definition ascii_lower_cp (c : Z) : Z := if (65 <=? c) && (c <=? 90) then c + 32 else c.

Definition ENV_TRUE : list pystr := [txt "1"; txt "true"; txt "yes"; txt "y"; txt "on"].

(** [env_bool(name, default)], [val] being [os.getenv(name)].  The test
    [s.lower() in ("1", "true", "yes", "y", "on")] is computed by lowering the
    ASCII capitals of [s] only; the outcome is the same as with the full
    [str.lower()], because the only code points outside [A-Z] whose
    lowercase form is made of ASCII letters or digits are U+212A (to "k")
    and U+0130 (to "i" and a combining dot), and neither "k" nor a combining
    dot occurs in the five accepted words. *)
Definition env_bool (val : option pystr) (default : bool) : bool :=
  match val with
  | None => default
  | Some v => existsb (pystr_eqb (map ascii_lower_cp (py_strip v))) ENV_TRUE
  end.

(** ** [summarize_items] (lines 50-55) *)

Definition SUMMARY_LIMIT : Z := 20.

(** [summarize_items(items, limit)]: 8212 is the em dash, 8230 the
    ellipsis, 225 the "a" with acute accent. *)
Definition summarize_items (items : list pystr) (limit : Z) : pystr :=
  match items with
  | [] => [8212]
  | _ =>
      if Z.of_nat (length items) <=? limit then join (txt ", ") items
      else join (txt ", ") (py_take items limit) ++ txt ", " ++ [8230] ++ txt " (+"
             ++ py_str_int (Z.of_nat (length items) - limit) ++ txt " m" ++ [225] ++ txt "s)"
  end.

(** ** The Cloudflare feed (lines 39-42 and 84-107) *)

(** [bytes.splitlines()]: lines end at [\n], [\r] or [\r\n]; [cur] is the
    current line, reversed. *)
Fixpoint splitlines_go (cur : pybytes) (b : pybytes) : list pybytes :=
  match b with
  | [] => match cur with [] => [] | _ => [rev cur] end
  | c :: r =>
      if c =? 10 then rev cur :: splitlines_go [] r
      else if c =? 13 then
        match r with
        | d :: r' => if d =? 10 then rev cur :: splitlines_go [] r'
                     else rev cur :: splitlines_go [] r
        | [] => [rev cur]
        end
      else splitlines_go (c :: cur) r
  end.

Definition splitlines (b : pybytes) : list pybytes := splitlines_go [] b.

Definition in_range (lo hi b : Z) : bool := (lo <=? b) && (b <=? hi).
Definition utf8_cont (b : Z) : bool := in_range 128 191 b.

(** [b.decode("utf-8")] (strict): [None] when it raises
    [UnicodeDecodeError]. *)
Fixpoint decode_utf8 (b : pybytes) : option pystr :=
  match b with
  | [] => Some []
  | b1 :: r1 =>
      if in_range 0 127 b1 then option_map (cons b1) (decode_utf8 r1)
      else if in_range 194 223 b1 then
        match r1 with
        | b2 :: r2 =>
            if utf8_cont b2
            then option_map (cons (Z.lor (Z.shiftl (Z.land b1 31) 6) (Z.land b2 63)))
                   (decode_utf8 r2)
            else None
        | [] => None
        end
      else if in_range 224 239 b1 then
        match r1 with
        | b2 :: b3 :: r3 =>
            let lo := if b1 =? 224 then 160 else 128 in
            let hi := if b1 =? 237 then 159 else 191 in
            if in_range lo hi b2 && utf8_cont b3
            then option_map (cons (Z.lor (Z.shiftl (Z.land b1 15) 12)
                                     (Z.lor (Z.shiftl (Z.land b2 63) 6) (Z.land b3 63))))
                   (decode_utf8 r3)
            else None
        | _ => None
        end
      else if in_range 240 244 b1 then
        match r1 with
        | b2 :: b3 :: b4 :: r4 =>
            let lo := if b1 =? 240 then 144 else 128 in
            let hi := if b1 =? 244 then 143 else 191 in
            if in_range lo hi b2 && utf8_cont b3 && utf8_cont b4
            then option_map (cons (Z.lor (Z.shiftl (Z.land b1 7) 18)
                                     (Z.lor (Z.shiftl (Z.land b2 63) 12)
                                        (Z.lor (Z.shiftl (Z.land b3 63) 6) (Z.land b4 63)))))
                   (decode_utf8 r4)
            else None
        | _ => None
        end
      else None
  end.

Set Warnings "-register-all".

(** A JSON value as [json.loads] returns it; an object is the list of its
    members in order. *)
Inductive json :=
| JNull
| JBool (b : bool)
| JNum (q : Q)
| JStr (s : pystr)
| JArr (l : list json)
| JObj (members : list (pystr * json)).

Definition json_truthy (j : json) : bool :=
  match j with
  | JNull => false
  | JBool b => b
  | JNum q => negb (Qeq_bool q 0)
  | JStr s => nonnil s
  | JArr l => nonnil l
  | JObj m => nonnil m
  end.

(** [d.get(k)] on an object; [json.loads] keeps the last value of a
    repeated key. *)
Definition json_get (members : list (pystr * json)) (k : pystr) : option json :=
  option_map snd (find (fun kv => pystr_eqb (fst kv) k) (rev members)).

(** [d.get(k, dflt)] *)
Definition json_get_or (members : list (pystr * json)) (k : pystr) (dflt : json) : json :=
  match json_get members k with Some v => v | None => dflt end.

(** [x or dflt] *)
Definition json_or (j dflt : json) : json := if json_truthy j then j else dflt.

(** A list of [str], as a JSON-like value. *)
Definition jlist (l : list pystr) : json := JArr (map JStr l).

(** What [http_get] ([urllib.request.urlopen(...).read()]) does. *)
Inductive get_outcome :=
| GetOk (body : pybytes)
| GetHTTPError (code : Z)
| GetURLError (reason : string)
| GetOtherError (msg : string).

(** A request: the URL and the [Accept] header sent. *)
Definition request := (string * string)%type.

(** The network, as seen by the feed code: the answer to each GET, given
    the requests made before; and [json.loads], a library function the
    embedding takes as given ([None] when it raises). *)
Record web := mkWeb {
  http_get_oracle : list request -> request -> get_outcome;
  json_loads : pystr -> option json
}.

Inductive wexn :=
| HTTPError (code : Z)
| URLError (reason : string)
| OtherError (msg : string)
| UnicodeDecodeError
| JSONDecodeError
| AttributeError.

Inductive wres (A : Type) := WOk (a : A) | WErr (e : wexn).
Arguments WOk {A} a.
Arguments WErr {A} e.

(** The feed code runs in a state-and-error monad over the requests made. *)
Definition Wm (A : Type) := list request -> wres A * list request.

Definition wret {A} (a : A) : Wm A := fun tr => (WOk a, tr).
Definition wraise {A} (e : wexn) : Wm A := fun tr => (WErr e, tr).
Definition wbind {A B} (m : Wm A) (f : A -> Wm B) : Wm B :=
  fun tr => match m tr with
            | (WOk a, tr') => f a tr'
            | (WErr e, tr') => (WErr e, tr')
            end.

Notation "x <~ m ;; k" := (wbind m (fun x => k))
  (at level 61, m at next level, right associativity).

(** [try: m except (urllib.error.HTTPError, urllib.error.URLError): h] *)
Definition wtry_url {A} (m : Wm A) (h : Wm A) : Wm A :=
  fun tr => match m tr with
            | (WErr (HTTPError _), tr') | (WErr (URLError _), tr') => h tr'
            | r => r
            end.

Definition CF_V4_URL : string := "https://www.cloudflare.com/ips-v4".
Definition CF_V6_URL : string := "https://www.cloudflare.com/ips-v6".
Definition CF_API_URL : string := "https://api.cloudflare.com/client/v4/ips".

(** The [Accept] header of [UA_HEADERS_PLAIN] and of [UA_HEADERS_JSON]. *)
Definition ACCEPT_PLAIN : string := "text/plain,*/*;q=0.1".
Definition ACCEPT_JSON : string := "application/json".

(** [http_get(url, headers)] *)
Definition http_get (w : web) (url accept : string) : Wm pybytes :=
  fun tr => let rq : request := (url, accept) in
            match http_get_oracle w tr rq with
            | GetOk b => (WOk b, tr ++ [rq])
            | GetHTTPError c => (WErr (HTTPError c), tr ++ [rq])
            | GetURLError r => (WErr (URLError r), tr ++ [rq])
            | GetOtherError m => (WErr (OtherError m), tr ++ [rq])
            end.

(** [if not b or b.startswith(b"#"): continue] *)
Definition skip_line (b : pybytes) : bool :=
  match b with [] => true | c :: _ => c =? 35 end.

(** The loop of [fetch_plain_lines]; [None] when a decode raises. *)
Fixpoint plain_lines_loop (lines : list pybytes) : option (list pystr) :=
  match lines with
  | [] => Some []
  | b :: rest =>
      if skip_line b then plain_lines_loop rest
      else match decode_utf8 b with
           | Some s => option_map (cons (py_strip s)) (plain_lines_loop rest)
           | None => None
           end
  end.

Definition fetch_plain_lines (w : web) (url : string) : Wm (list pystr) :=
  raw <~ http_get w url ACCEPT_PLAIN ;;
  match plain_lines_loop (splitlines raw) with
  | Some out => wret out
  | None => wraise UnicodeDecodeError
  end.

(** [fetch_via_api]: [data.get] and [res.get] raise [AttributeError] on a
    value that is not an object. *)
Definition fetch_via_api (w : web) : Wm (json * json) :=
  raw <~ http_get w CF_API_URL ACCEPT_JSON ;;
  match decode_utf8 raw with
  | None => wraise UnicodeDecodeError
  | Some s =>
      match json_loads w s with
      | None => wraise JSONDecodeError
      | Some (JObj data) =>
          match json_get_or data (txt "result") (JObj []) with
          | JObj res =>
              wret (json_or (json_get_or res (txt "ipv4_cidrs") (JArr [])) (JArr []),
                    json_or (json_get_or res (txt "ipv6_cidrs") (JArr [])) (JArr []))
          | _ => wraise AttributeError
          end
      | Some _ => wraise AttributeError
      end
  end.

Definition fetch_cloudflare_ips (w : web) : Wm (json * json) :=
  r <~ wtry_url
         (v4 <~ fetch_plain_lines w CF_V4_URL ;;
          v6 <~ fetch_plain_lines w CF_V6_URL ;;
          if nonnil v4 || nonnil v6 then wret (Some (jlist v4, jlist v6)) else wret None)
         (wret None) ;;
  match r with
  | Some p => wret p
  | None => fetch_via_api w
  end.

(** ** The Slack report (lines 313-344) and the end of [handler]
    (lines 384-391) *)

(** What the process does that can be observed: the POST to the webhook
    and the lines it prints. *)
Inductive slack_event :=
| SlackPost (webhook : pystr) (payload_text : pystr)
| PrintSlackStatus (code : Z)
| PrintSlackError (msg : pystr)
| PrintSlackSkipped
| PrintSummary.

(** What [http_post_json] does: the status code and body, or an exception. *)
Inductive post_outcome := Posted (code : Z) (body : pystr) | PostRaised (msg : pystr).

Definition poster := list slack_event -> pystr -> pystr -> post_outcome.

(** The ["summary"] or ["note"] text of an [apply_delta] result; 243 is the
    "o" with acute accent. *)
Definition result_note (t : result_text) : pystr :=
  match t with
  | NoteForeignOwner owner acct =>
      txt "OWNER=" ++ txt owner ++ txt " != " ++ txt acct
        ++ txt ". Lista AWS-managed; se omite modificaci" ++ [243] ++ txt "n."
  | SummaryUpToDate id n => txt id ++ txt ": up to date (" ++ py_str_int n ++ txt " entries)"
  | SummaryChanged id a r v =>
      txt id ++ txt ": +" ++ py_str_int a ++ txt "/-" ++ py_str_int r ++ txt " -> v"
        ++ py_str_int v
  end.

(** The lines [notify_slack] writes for one result; 8226 is the bullet.
    An [apply_delta] result is a non-empty dict, so [if not r: continue]
    never skips one. *)
Definition result_lines (r : result) : list pystr :=
  let id_ := if str_truthy (rid r) then txt (rid r) else txt "N/A" in
  if changed r then
    ([8226] ++ txt " `" ++ id_ ++ txt "`: cambios  (+" ++ py_str_int (zlen (added r))
       ++ txt "/-" ++ py_str_int (zlen (removed r)) ++ txt ")")
    :: (if nonnil (added r)
        then [txt "   + " ++ summarize_items (map txt (added r)) SUMMARY_LIMIT] else [])
    ++ (if nonnil (removed r)
        then [txt "   - " ++ summarize_items (map txt (removed r)) SUMMARY_LIMIT] else [])
  else
    let note := result_note (text r) in
    [[8226] ++ txt " `" ++ id_ ++ txt "`: " ++ (if nonnil note then note else txt "sin cambios")].

Definition slack_lines (account default_region : string) (results : list result)
    (counts : Z * Z) : list pystr :=
  (txt "*Cloudflare PrefixList Update*  " ++ [8212] ++ txt "  acct `" ++ txt account
     ++ txt "`, region `" ++ txt default_region ++ txt "`")
  :: (txt "CF counts: v4=" ++ py_str_int (fst counts) ++ txt ", v6=" ++ py_str_int (snd counts))
  :: concat (map result_lines results).

(** [notify_slack]: every exception of the POST is caught and printed. *)
Definition notify_slack (post : poster) (ev : list slack_event) (webhook : pystr)
    (account default_region : string) (results : list result) (counts : Z * Z)
    : list slack_event :=
  let payload_text := join [10] (slack_lines account default_region results counts) in
  let ev1 := ev ++ [SlackPost webhook payload_text] in
  match post ev webhook payload_text with
  | Posted code _ => ev1 ++ [PrintSlackStatus code]
  | PostRaised msg => ev1 ++ [PrintSlackError msg]
  end.

(** The two environment variables of the Slack part. *)
Record slack_env := mkSlackEnv {
  SLACK_NOTIFY : option pystr;
  SLACK_WEBHOOK_URL : option pystr
}.

Definition opt_nonnil (o : option pystr) : bool :=
  match o with Some s => nonnil s | None => false end.

(** [handler] with its Slack part: the reconciliation ([handler] above),
    then the notification of the changed results and the final print. *)
Definition lambda_handler (g : globals) (cfg : config) (senv : slack_env) (post : poster)
    (v4 v6 : list string) (tr : trace) (ev : list slack_event)
    : res summary * trace * list slack_event :=
  let slack_notify := env_bool (SLACK_NOTIFY senv) false in
  let slack_webhook := SLACK_WEBHOOK_URL senv in
  match handler g cfg v4 v6 tr with
  | (Err e, tr') => (Err e, tr', ev)
  | (Ok out, tr') =>
      let changed_results := filter changed (summary_result out) in
      let ev' :=
        if slack_notify && opt_nonnil slack_webhook && nonnil changed_results
        then notify_slack post ev (match slack_webhook with Some s => s | None => [] end)
               (ACCOUNT g) (DEFAULT_REGION g) changed_results (counts out)
        else if slack_notify && opt_nonnil slack_webhook then ev ++ [PrintSlackSkipped]
        else ev in
      (Ok out, tr', ev' ++ [PrintSummary])
  end.

(** ** Vocabulary of the statements below *)

(** [c.upper()] on the ASCII lowercase letters. *)
Definition ascii_upper_cp (c : Z) : Z := if (97 <=? c) && (c <=? 122) then c - 32 else c.

Definition is_digit (c : Z) : bool := in_range 48 57 c.

(** The value of a string of decimal digits. *)
Definition decimal_value (t : pystr) : Z := fold_left (fun acc d => acc * 10 + (d - 48)) t 0.

Definition no_line_break (l : pybytes) : bool :=
  forallb (fun c => negb ((c =? 10) || (c =? 13))) l.

(** The same bytes with every [\n] written as [\r\n], or as [\r]. *)
Definition to_crlf (b : pybytes) : pybytes :=
  flat_map (fun c => if c =? 10 then [13; 10] else [c]) b.
Definition to_cr (b : pybytes) : pybytes := map (fun c => if c =? 10 then 13 else c) b.

Definition describe_call (c : call) : bool :=
  match c with CDescribeManaged _ _ _ | CDescribePrefix _ _ => true | _ => false end.

Definition is_sleep (c : call) : bool := match c with CSleep _ => true | _ => false end.

(** The time slept, in units of [backoff] (0.5 s): [2 ** i] for [CSleep i]. *)
Definition sleep_units (ext : trace) : Z :=
  fold_right (fun c acc => match c with CSleep i => 2 ^ Z.of_nat i + acc | _ => acc end) 0 ext.

Definition adds_described (d : string) (ab : option (list add_entry)) : bool :=
  match ab with
  | Some l => forallb (fun e => String.eqb (AddDescription e) d) l
  | None => true
  end.

(** The three requests of the feed code. *)
Definition V4_REQUEST : request := (CF_V4_URL, ACCEPT_PLAIN).
Definition V6_REQUEST : request := (CF_V6_URL, ACCEPT_PLAIN).
Definition API_REQUEST : request := (CF_API_URL, ACCEPT_JSON).

(** A GET that fails with [HTTPError] or [URLError], the errors
    [fetch_cloudflare_ips] catches. *)
Definition url_failure (o : get_outcome) : Prop :=
  (exists c, o = GetHTTPError c) \/ (exists r, o = GetURLError r).

(** Any error. *)
Definition any_exn (_ : exn) : bool := true.

(** An entries read of list [pid], or a modify call of list [pid] whose
    added entries all carry the description [d]; other calls pass. *)
Definition reconcile_call_ok (pid d : string) (c : call) : bool :=
  match c with
  | CGetEntries _ i _ => String.eqb i pid
  | CModify _ kw => String.eqb (MPrefixListId kw) pid && adds_described d (MAddEntries kw)
  | _ => true
  end.

(** [x] is the non-empty [Cidr] of an entry on a page that one of the reads
    of [ext], issued after the history [tr], got back from
    [get_managed_prefix_list_entries] for the list [id]. *)
Definition cidr_read (ec2 : client) (id : string) (tr ext : trace) (x : string) : Prop :=
  exists k tok resp e,
    nth_error ext k = Some (CGetEntries (region_name ec2) id tok) /\
    get_managed_prefix_list_entries ec2 (tr ++ firstn k ext) id tok = Resp resp /\
    In e (list_or (Entries resp) []) /\ Cidr e = Some x /\ str_truthy x = true.

(** ** A concrete network for the examples *)

Module DemoWeb.

(** The double quote character. *)
Definition dq : string := String (ascii_of_nat 34) EmptyString.

(** A network that answers each of the three Cloudflare URLs with a fixed
    outcome and fails to resolve any other host; [json.loads] knows one
    document. *)
Definition web_of (v4 v6 api : get_outcome) (doc : pystr) (j : json) : web :=
  mkWeb (fun _ rq =>
           let u := fst rq in
           if String.eqb u CF_V4_URL then v4
           else if String.eqb u CF_V6_URL then v6
           else if String.eqb u CF_API_URL then api
           else GetURLError "[Errno -2] Name or service not known")
        (fun s => if pystr_eqb s doc then Some j else None).

Definition v4_body : pybytes :=
  txt "173.245.48.0/20" ++ [10] ++ txt "103.21.244.0/22" ++ [10].
Definition v6_body : pybytes := txt "2400:cb00::/32" ++ [10].

Definition api_text : string :=
  "{" ++ dq ++ "result" ++ dq ++ ":{" ++ dq ++ "ipv4_cidrs" ++ dq ++ ":[" ++ dq
    ++ "173.245.48.0/20" ++ dq ++ "]," ++ dq ++ "ipv6_cidrs" ++ dq ++ ":[]}," ++ dq
    ++ "success" ++ dq ++ ":true}".
Definition api_json : json :=
  JObj [(txt "result", JObj [(txt "ipv4_cidrs", JArr [JStr (txt "173.245.48.0/20")]);
                             (txt "ipv6_cidrs", JArr [])]);
        (txt "success", JBool true)].

Definition api_ok (v4 v6 : get_outcome) : web :=
  web_of v4 v6 (GetOk (txt api_text)) (txt api_text) api_json.

End DemoWeb.

(** * Proofs *)

(** ** Sets and sorting *)

Definition str_le (a b : string) : Prop := String.leb a b = true.

Lemma str_mem_iff (x : string) (l : list string) : str_mem x l = true <-> In x l.
Proof.
  unfold str_mem. rewrite existsb_exists. split.
  - intros (y & Hy & Heq). apply String.eqb_eq in Heq. now subst.
  - intros H. exists x. split; [exact H | apply String.eqb_refl].
Qed.

Lemma str_mem_false (x : string) (l : list string) : str_mem x l = false <-> ~ In x l.
Proof.
  rewrite <- str_mem_iff. destruct (str_mem x l); split; congruence.
Qed.

Lemma insert_sorted_perm (x : string) (l : list string) :
  Permutation.Permutation (insert_sorted x l) (x :: l).
Proof.
  induction l as [|y l IH]; simpl; [reflexivity|].
  destruct (String.leb x y); [reflexivity|].
  eapply Permutation.perm_trans; [apply Permutation.perm_skip, IH|].
  apply Permutation.perm_swap.
Qed.

Lemma insert_sorted_sorted (x : string) (l : list string) :
  Sorted str_le l -> Sorted str_le (insert_sorted x l).
Proof.
  induction 1 as [|y l Hs IH Hhd]; simpl.
  - repeat constructor.
  - destruct (String.leb x y) eqn:Hxy.
    + constructor; [constructor; assumption | constructor; exact Hxy].
    + constructor; [exact IH|].
      assert (Hyx : str_le y x).
      { destruct (String.leb_total x y); [congruence | assumption]. }
      destruct Hhd as [|z l' Hyz]; simpl.
      * constructor; exact Hyx.
      * destruct (String.leb x z); constructor; assumption.
Qed.

Lemma py_sorted_perm (xs : list string) : Permutation.Permutation (py_sorted xs) xs.
Proof.
  induction xs as [|x xs IH]; simpl; [reflexivity|].
  eapply Permutation.perm_trans; [apply insert_sorted_perm|].
  now apply Permutation.perm_skip.
Qed.

Lemma py_sorted_sorted (xs : list string) : Sorted str_le (py_sorted xs).
Proof.
  induction xs as [|x xs IH]; simpl; [constructor|].
  now apply insert_sorted_sorted.
Qed.

Lemma py_sorted_In (x : string) (xs : list string) : In x (py_sorted xs) <-> In x xs.
Proof.
  split; apply Permutation.Permutation_in;
    [|apply Permutation.Permutation_sym]; apply py_sorted_perm.
Qed.

Lemma py_sorted_NoDup (xs : list string) : NoDup xs -> NoDup (py_sorted xs).
Proof.
  intros H. eapply Permutation.Permutation_NoDup; [|exact H].
  apply Permutation.Permutation_sym, py_sorted_perm.
Qed.

Lemma set_add_In (l : list string) (x y : string) : In y (set_add l x) <-> y = x \/ In y l.
Proof.
  unfold set_add. destruct (str_mem x l) eqn:E.
  - apply str_mem_iff in E. split; [tauto|]. intros [->|H]; assumption.
  - rewrite in_app_iff. simpl. intuition.
Qed.

Lemma set_add_NoDup (l : list string) (x : string) : NoDup l -> NoDup (set_add l x).
Proof.
  unfold set_add. destruct (str_mem x l) eqn:E; intros H; [exact H|].
  apply str_mem_false in E. apply NoDup_app; auto using NoDup_cons, NoDup_nil.
  intros y Hy Hy'. destruct Hy' as [->|[]]. contradiction.
Qed.

Lemma fold_set_add_In (xs l : list string) (y : string) :
  In y (fold_left set_add xs l) <-> In y xs \/ In y l.
Proof.
  revert l. induction xs as [|x xs IH]; intros l; simpl; [tauto|].
  rewrite IH, set_add_In. intuition.
Qed.

Lemma fold_set_add_NoDup (xs l : list string) : NoDup l -> NoDup (fold_left set_add xs l).
Proof.
  revert l. induction xs as [|x xs IH]; intros l H; simpl; [exact H|].
  apply IH, set_add_NoDup, H.
Qed.

Lemma py_set_In (xs : list string) (y : string) : In y (py_set xs) <-> In y xs.
Proof. unfold py_set. rewrite fold_set_add_In. simpl. tauto. Qed.

Lemma py_set_NoDup (xs : list string) : NoDup (py_set xs).
Proof. apply fold_set_add_NoDup, NoDup_nil. Qed.

Lemma set_diff_In (a b : list string) (x : string) : In x (set_diff a b) <-> In x a /\ ~ In x b.
Proof.
  unfold set_diff. rewrite filter_In, negb_true_iff, str_mem_false. tauto.
Qed.

Lemma set_diff_NoDup (a b : list string) : NoDup a -> NoDup (set_diff a b).
Proof. apply NoDup_filter. Qed.

(** ** C7: the delta is the two set differences *)

(** C7: for every desired list [D] and current set [C], [apply_delta]
    computes [to_add = sorted(set(D) - C)] and [to_remove = sorted(C - set(D))]:
    [to_add] holds exactly the elements of [D] not in [C], [to_remove]
    exactly the elements of [C] not in [D], both are sorted and duplicate
    free (the latter when [C] is a set), they are disjoint, [to_add] avoids
    [C] and [to_remove] is included in [C]. *)
Theorem delta_minimal (D C : list string) :
  let '(to_add, to_remove) := delta (py_set D) C in
  (forall x, In x to_add <-> In x D /\ ~ In x C) /\
  (forall x, In x to_remove <-> In x C /\ ~ In x D) /\
  Sorted str_le to_add /\ Sorted str_le to_remove /\
  NoDup to_add /\ (NoDup C -> NoDup to_remove) /\
  (forall x, In x to_add -> ~ In x to_remove) /\
  (forall x, In x to_add -> ~ In x C) /\
  (forall x, In x to_remove -> In x C).
Proof.
  unfold delta.
  assert (Ha : forall x, In x (py_sorted (set_diff (py_set D) C)) <-> In x D /\ ~ In x C).
  { intros x. rewrite py_sorted_In, set_diff_In, py_set_In. tauto. }
  assert (Hr : forall x, In x (py_sorted (set_diff C (py_set D))) <-> In x C /\ ~ In x D).
  { intros x. rewrite py_sorted_In, set_diff_In, py_set_In. tauto. }
  split; [exact Ha|]. split; [exact Hr|].
  split; [apply py_sorted_sorted|]. split; [apply py_sorted_sorted|].
  split; [apply py_sorted_NoDup, set_diff_NoDup, py_set_NoDup|].
  split; [intros H; apply py_sorted_NoDup, set_diff_NoDup, H|].
  split; [intros x H1 H2; apply Ha in H1; apply Hr in H2; tauto|].
  split; [intros x H1; apply Ha in H1; tauto|].
  intros x H1. apply Hr in H1. tauto.
Qed.

Lemma delta_minimal_witness :
  delta (py_set ["10.0.0.0/8"; "1.0.0.0/8"; "1.0.0.0/8"]) ["10.0.0.0/8"; "2.0.0.0/8"]
  = (["1.0.0.0/8"], ["2.0.0.0/8"]) /\
  NoDup (snd (delta (py_set ["10.0.0.0/8"; "1.0.0.0/8"; "1.0.0.0/8"])
                    ["10.0.0.0/8"; "2.0.0.0/8"])).
Proof.
  split; [vm_compute; reflexivity|].
  pose proof (delta_minimal ["10.0.0.0/8"; "1.0.0.0/8"; "1.0.0.0/8"]
                ["10.0.0.0/8"; "2.0.0.0/8"]) as H.
  destruct (delta (py_set ["10.0.0.0/8"; "1.0.0.0/8"; "1.0.0.0/8"])
              ["10.0.0.0/8"; "2.0.0.0/8"]) as [to_add to_remove].
  apply (proj1 (proj2 (proj2 (proj2 (proj2 (proj2 H)))))).
  apply NoDup_cons; [simpl; intros [Heq|[]]; discriminate|].
  apply NoDup_cons; [intros []|apply NoDup_nil].
Defined.

(** ** Which calls a computation may issue, which errors it may raise *)

(** [Safe P Q m]: run from any trace, [m] only appends calls satisfying
    [P] and only raises errors satisfying [Q]. *)
Definition Safe {A} (P : call -> bool) (Q : exn -> bool) (m : M A) : Prop :=
  forall tr r tr', m tr = (r, tr') ->
    (exists ext, tr' = tr ++ ext /\ forallb P ext = true) /\
    (forall e, r = Err e -> Q e = true).

Definition not_modify (c : call) : bool := match c with CModify _ _ => false | _ => true end.
Definition not_capacity (e : exn) : bool := match e with CapacityError _ _ _ => false | _ => true end.
Definition any_call (_ : call) : bool := true.

Create HintDb safe.

Section SafeRules.
Context (P : call -> bool) (Q : exn -> bool).

Lemma safe_ret {A} (a : A) : Safe P Q (ret a).
Proof.
  intros tr r tr' H. inversion H; subst. split.
  - exists []. rewrite app_nil_r. auto.
  - discriminate.
Qed.

Lemma safe_raise {A} (e : exn) : Q e = true -> Safe P Q (@raise A e).
Proof.
  intros He tr r tr' H. inversion H; subst. split.
  - exists []. rewrite app_nil_r. auto.
  - intros e' Heq. inversion Heq; subst. exact He.
Qed.

Lemma safe_bind {A B} (m : M A) (f : A -> M B) :
  Safe P Q m -> (forall a, Safe P Q (f a)) -> Safe P Q (bind m f).
Proof.
  intros Hm Hf tr r tr' H. unfold bind in H.
  destruct (m tr) as [[a|e] tr1] eqn:E.
  - destruct (Hm _ _ _ E) as [(ext1 & -> & P1) _].
    destruct (Hf a _ _ _ H) as [(ext2 & -> & P2) Q2]. split; [|exact Q2].
    exists (ext1 ++ ext2). rewrite app_assoc, forallb_app, P1, P2. auto.
  - inversion H; subst. destruct (Hm _ _ _ E) as [Hext He]. split; [exact Hext|].
    intros e' Heq. inversion Heq; subst. apply He. reflexivity.
Qed.

Lemma safe_ec2_call {A} (c : call) (o : trace -> outcome A) :
  P c = true -> (forall msg, Q (ClientError msg) = true) -> Safe P Q (ec2_call c o).
Proof.
  intros Hc HQ tr r tr' H. unfold ec2_call in H.
  destruct (o tr); inversion H; subst; split;
    try (exists [c]; simpl; rewrite Hc; auto); intros e He; inversion He; auto.
Qed.

Lemma safe_try_client {A} (m : M A) (h : string -> M A) :
  Safe P Q m -> (forall msg, Safe P Q (h msg)) -> Safe P Q (try_client m h).
Proof.
  intros Hm Hh tr r tr' H. unfold try_client in H.
  destruct (m tr) as [[a|[msg| | |]] tr1] eqn:E;
    try (inversion H; subst; exact (Hm _ _ _ E)).
  destruct (Hm _ _ _ E) as [(ext1 & -> & P1) _].
  destruct (Hh msg _ _ _ H) as [(ext2 & -> & P2) Q2]. split; [|exact Q2].
  exists (ext1 ++ ext2). rewrite app_assoc, forallb_app, P1, P2. auto.
Qed.

Lemma safe_sleep (i : nat) : P (CSleep i) = true -> Safe P Q (sleep i).
Proof.
  intros Hc tr r tr' H. inversion H; subst. split.
  - exists [CSleep i]. simpl. rewrite Hc. auto.
  - discriminate.
Qed.

End SafeRules.

Lemma safe_weaken {A} (P P' : call -> bool) (Q Q' : exn -> bool) (m : M A) :
  (forall c, P c = true -> P' c = true) -> (forall e, Q e = true -> Q' e = true) ->
  Safe P Q m -> Safe P' Q' m.
Proof.
  intros HP HQ Hm tr r tr' H. destruct (Hm _ _ _ H) as [(ext & -> & Hext) He].
  split.
  - exists ext. split; [reflexivity|]. rewrite forallb_forall in *. auto.
  - intros e Heq. apply HQ, He, Heq.
Qed.

#[export] Hint Resolve safe_ret safe_raise safe_bind safe_ec2_call safe_try_client
  safe_sleep : safe.
#[export] Hint Extern 1 (_ = true) => reflexivity : safe.
#[export] Hint Extern 1 (forall _ : string, _ = true) => intros; reflexivity : safe.

(** Split a [Safe] goal along the structure of the computation. *)
Ltac safe_tac :=
  repeat match goal with
  | |- Safe _ _ (bind _ _) => apply safe_bind; [|intros ?]
  | |- Safe _ _ (try_client _ _) => apply safe_try_client; [|intros ?]
  | |- Safe _ _ (let '(_, _) := ?x in _) => destruct x
  | |- Safe _ _ (if ?b then _ else _) => destruct b
  | |- Safe _ _ (match ?x with _ => _ end) => destruct x
  end; eauto with safe.

Lemma safe_paginate describe absorb fuel token st :
  (forall t, Safe not_modify not_capacity (describe t)) ->
  Safe not_modify not_capacity (paginate describe absorb fuel token st).
Proof.
  intros Hd. revert token st. induction fuel as [|f IH]; intros token st; simpl; safe_tac.
Qed.
#[export] Hint Resolve safe_paginate : safe.

Lemma safe_describe_managed ec2 ids tok :
  Safe not_modify not_capacity (_describe_managed_pls ec2 ids tok).
Proof. unfold _describe_managed_pls. safe_tac. Qed.

Lemma safe_describe_prefix ec2 tok :
  Safe not_modify not_capacity (_describe_prefix_pls ec2 tok).
Proof. unfold _describe_prefix_pls. safe_tac. Qed.
#[export] Hint Resolve safe_describe_managed safe_describe_prefix : safe.

Lemma safe_list_all ec2 : Safe not_modify not_capacity (_list_all_pls ec2).
Proof. unfold _list_all_pls. safe_tac. Qed.
#[export] Hint Resolve safe_list_all : safe.

Lemma safe_find_pl ec2 id name : Safe not_modify not_capacity (_find_pl ec2 id name).
Proof. unfold _find_pl. safe_tac. Qed.
#[export] Hint Resolve safe_find_pl : safe.

Lemma safe_retry_loop ec2 id name i n seen :
  Safe not_modify not_capacity (retry_loop ec2 id name i n seen).
Proof.
  revert i seen. induction n as [|n IH]; intros i seen; simpl; safe_tac.
Qed.
#[export] Hint Resolve safe_retry_loop : safe.

Lemma safe_describe_pl_with_retries acct ec2 id name attempts :
  Safe not_modify not_capacity (_describe_pl_with_retries acct ec2 id name attempts).
Proof. unfold _describe_pl_with_retries. safe_tac. Qed.
#[export] Hint Resolve safe_describe_pl_with_retries : safe.

Lemma safe_entries_loop ec2 id fuel token have :
  Safe not_modify not_capacity (entries_loop ec2 id fuel token have).
Proof.
  revert token have. induction fuel as [|f IH]; intros token have; simpl; safe_tac.
Qed.
#[export] Hint Resolve safe_entries_loop : safe.

Lemma safe_get_pl_entries acct ec2 id name :
  Safe not_modify not_capacity (get_pl_entries acct ec2 id name).
Proof. unfold get_pl_entries. safe_tac. Qed.

Lemma safe_modify acct ec2 id name ab rb v :
  Safe any_call not_capacity (_modify acct ec2 id name ab rb v).
Proof.
  unfold _modify. safe_tac.
  eapply safe_weaken; [| |apply safe_describe_pl_with_retries]; auto.
Qed.
#[export] Hint Resolve safe_modify : safe.

Lemma safe_batch_loop acct ec2 id name abs rbs fuel ai ri v :
  Safe any_call not_capacity (batch_loop acct ec2 id name abs rbs fuel ai ri v).
Proof.
  revert ai ri v. induction fuel as [|f IH]; intros ai ri v; simpl; safe_tac.
Qed.

(** ** Reconciliation of one list *)

Lemma apply_delta_ok acct ec2 id desc D name acct_owner tr v have m owner tr1 :
  get_pl_entries acct ec2 id name tr = (Ok (v, have, m, owner), tr1) ->
  apply_delta acct ec2 id desc D name acct_owner tr
  = apply_delta_body acct ec2 id desc D name acct_owner v have m owner tr1.
Proof. intros H. unfold apply_delta, bind. rewrite H. reflexivity. Qed.

Lemma get_pl_entries_no_modify acct ec2 id name tr r tr1 :
  get_pl_entries acct ec2 id name tr = (r, tr1) ->
  exists ext, tr1 = tr ++ ext /\ forallb not_modify ext = true.
Proof. intros H. exact (proj1 (safe_get_pl_entries acct ec2 id name _ _ _ H)). Qed.

Lemma entries_loop_NoDup ec2 id fuel token have tr r tr1 :
  NoDup have -> entries_loop ec2 id fuel token have tr = (Ok r, tr1) -> NoDup r.
Proof.
  revert token have tr. induction fuel as [|f IH]; intros token have tr Hnd H; simpl in H.
  - discriminate.
  - unfold bind, ec2_call in H.
    destruct (get_managed_prefix_list_entries ec2 tr id _) as [resp|msg]; [|discriminate].
    assert (Hnd' : NoDup (fold_left (fun h e => match Cidr e with
                                                | Some c => if str_truthy c then set_add h c else h
                                                | None => h end)
                                     (list_or (Entries resp) []) have)).
    { generalize (list_or (Entries resp) []). intros es. clear H. revert have Hnd.
      induction es as [|e es IHes]; intros have Hnd; simpl; [exact Hnd|].
      apply IHes. destruct (Cidr e); [|exact Hnd].
      destruct (str_truthy s); [apply set_add_NoDup|]; exact Hnd. }
    destruct (ostr_truthy (EntriesNextToken resp)).
    + eapply IH; [exact Hnd'|exact H].
    + inversion H; subst. exact Hnd'.
Qed.

Lemma get_pl_entries_NoDup acct ec2 id name tr v have m owner tr1 :
  get_pl_entries acct ec2 id name tr = (Ok (v, have, m, owner), tr1) -> NoDup have.
Proof.
  unfold get_pl_entries, bind. intros H.
  destruct (_describe_pl_with_retries _ _ _ _ _ tr) as [[p|e] tr2]; [|discriminate].
  destruct (entries_loop ec2 id PAGE_FUEL None [] tr2) as [[h|e] tr3] eqn:E; [|discriminate].
  inversion H; subst. eapply entries_loop_NoDup; [apply NoDup_nil|exact E].
Qed.

(** C2 (as stated it fails): the entries of a list owned by another
    account are read all the same: on the concrete region [Demo.east], the
    run for [pl-aws] pages through its entries before it skips the list. *)
Lemma foreign_owner_reads_entries :
  snd (apply_delta "111" Demo.east "pl-aws" "d" ["9.9.9.9/32"] None "111" [])
  = [CDescribeManaged "us-east-1" (Some ["pl-aws"]) None;
     CGetEntries "us-east-1" "pl-aws" None]
  /\ fst (get_pl_entries "111" Demo.east "pl-aws" None []) = Ok (7, ["1.1.1.0/24"], 10, "AWS").
Proof. split; vm_compute; reflexivity. Qed.

(** C2 (amended): when the owner the entry reader reports is non-empty and
    differs from the caller's account, [apply_delta] returns a result with
    [changed = false], equal from/to versions, nothing added or removed and
    a note naming both owners; no provider call follows the owner check and
    no modify call is issued at all (the entry pages were read by
    [get_pl_entries] before the check). *)
Theorem foreign_owner_skipped acct ec2 id desc D name acct_owner tr v have m owner tr1 :
  get_pl_entries acct ec2 id name tr = (Ok (v, have, m, owner), tr1) ->
  owner <> "" -> owner <> acct_owner ->
  apply_delta acct ec2 id desc D name acct_owner tr
  = (Ok (mkResult id v v [] [] false (NoteForeignOwner owner acct_owner)), tr1) /\
  exists ext, tr1 = tr ++ ext /\ forallb not_modify ext = true.
Proof.
  intros H Hne Hdiff. split; [|eapply get_pl_entries_no_modify; exact H].
  rewrite (apply_delta_ok _ _ _ _ _ _ _ _ _ _ _ _ _ H). unfold apply_delta_body.
  unfold str_truthy. apply String.eqb_neq in Hne, Hdiff. rewrite Hne, Hdiff. reflexivity.
Qed.

Lemma foreign_owner_skipped_witness :
  apply_delta "111" Demo.east "pl-aws" "d" ["9.9.9.9/32"] None "111" []
  = (Ok (mkResult "pl-aws" 7 7 [] [] false (NoteForeignOwner "AWS" "111")),
     [CDescribeManaged "us-east-1" (Some ["pl-aws"]) None;
      CGetEntries "us-east-1" "pl-aws" None]) /\
  exists ext, [CDescribeManaged "us-east-1" (Some ["pl-aws"]) None;
               CGetEntries "us-east-1" "pl-aws" None] = [] ++ ext /\
              forallb not_modify ext = true.
Proof.
  apply (foreign_owner_skipped "111" Demo.east "pl-aws" "d" ["9.9.9.9/32"] None "111" []
           7 ["1.1.1.0/24"] 10 "AWS").
  - vm_compute. reflexivity.
  - discriminate.
  - discriminate.
Defined.

Lemma owned_not_foreign (owner acct_owner : string) :
  owner = "" \/ owner = acct_owner ->
  str_truthy owner && negb (String.eqb owner acct_owner) = false.
Proof.
  intros [H|H]; subst; [reflexivity|]. rewrite String.eqb_refl, andb_false_r. reflexivity.
Qed.

(** C5: for an owned list ([OwnerId] empty or the caller's account) whose
    [MaxEntries] is positive and below the number of distinct desired
    CIDRs, [apply_delta] raises the capacity error carrying both counts and
    the list id, issues no call after reading the entries, and no modify
    call at all. *)
Theorem capacity_exceeded acct ec2 id desc D name acct_owner tr v have m owner tr1 :
  get_pl_entries acct ec2 id name tr = (Ok (v, have, m, owner), tr1) ->
  owner = "" \/ owner = acct_owner ->
  0 < m -> m < zlen (py_set D) ->
  apply_delta acct ec2 id desc D name acct_owner tr
  = (Err (CapacityError (zlen (py_set D)) m id), tr1) /\
  exists ext, tr1 = tr ++ ext /\ forallb not_modify ext = true.
Proof.
  intros H Hown Hm Hcap. split; [|eapply get_pl_entries_no_modify; exact H].
  rewrite (apply_delta_ok _ _ _ _ _ _ _ _ _ _ _ _ _ H). unfold apply_delta_body.
  rewrite (owned_not_foreign _ _ Hown).
  replace (negb (m =? 0) && (zlen (py_set D) >? m)) with true; [reflexivity|].
  symmetry. apply andb_true_iff. split.
  - apply negb_true_iff, Z.eqb_neq. lia.
  - apply Z.gtb_lt. lia.
Qed.

Lemma capacity_exceeded_witness :
  apply_delta "111" Demo.east "pl-4" "d" ["1.0.0.0/8"; "2.0.0.0/8"; "3.0.0.0/8"] None "111" []
  = (Err (CapacityError 3 2 "pl-4"),
     [CDescribeManaged "us-east-1" (Some ["pl-4"]) None; CGetEntries "us-east-1" "pl-4" None]) /\
  exists ext, [CDescribeManaged "us-east-1" (Some ["pl-4"]) None;
               CGetEntries "us-east-1" "pl-4" None] = [] ++ ext /\
              forallb not_modify ext = true.
Proof.
  apply (capacity_exceeded "111" Demo.east "pl-4" "d" ["1.0.0.0/8"; "2.0.0.0/8"; "3.0.0.0/8"]
           None "111" [] 3 ["10.0.0.0/8"] 2 "111").
  - vm_compute. reflexivity.
  - right. reflexivity.
  - lia.
  - vm_compute. reflexivity.
Defined.

Lemma set_diff_nil (a b : list string) : (forall x, In x a -> In x b) -> set_diff a b = [].
Proof.
  induction a as [|x a IH]; intros H; [reflexivity|]. simpl.
  assert (Hx : str_mem x b = true) by (apply str_mem_iff, H; left; reflexivity).
  rewrite Hx. simpl. apply IH. intros y Hy. apply H. right. exact Hy.
Qed.

Lemma same_set_length (a b : list string) :
  NoDup a -> NoDup b -> (forall x, In x a <-> In x b) -> length a = length b.
Proof.
  intros Ha Hb H. apply Nat.le_antisymm; apply NoDup_incl_length; auto;
    intros x Hx; apply H; exact Hx.
Qed.

(** C8: when the desired list has exactly the elements of the current set
    and the list respects its capacity (the provider keeps at most
    [MaxEntries] entries on a bounded list), both halves of the delta are
    empty, [apply_delta] issues no call after reading the entries and no
    modify call at all, and returns [changed = false] with
    [from_version = to_version]. *)
Theorem unchanged_is_noop acct ec2 id desc D name acct_owner tr v have m owner tr1 :
  get_pl_entries acct ec2 id name tr = (Ok (v, have, m, owner), tr1) ->
  (forall x, In x D <-> In x have) ->
  m = 0 \/ zlen have <= m ->
  delta (py_set D) have = ([], []) /\
  exists r, apply_delta acct ec2 id desc D name acct_owner tr = (Ok r, tr1) /\
    changed r = false /\ from_version r = v /\ to_version r = v /\
    added r = [] /\ removed r = [] /\
    exists ext, tr1 = tr ++ ext /\ forallb not_modify ext = true.
Proof.
  intros H Hset Hcap.
  assert (Hnd : NoDup have) by (eapply get_pl_entries_NoDup; exact H).
  assert (Hdelta : delta (py_set D) have = ([], [])).
  { unfold delta. rewrite !set_diff_nil; [reflexivity| |];
      intros x Hx; rewrite ?py_set_In in *; apply Hset; exact Hx. }
  split; [exact Hdelta|].
  rewrite (apply_delta_ok _ _ _ _ _ _ _ _ _ _ _ _ _ H). unfold apply_delta_body.
  destruct (get_pl_entries_no_modify _ _ _ _ _ _ _ H) as [ext Hext].
  destruct (str_truthy owner && negb (String.eqb owner acct_owner)).
  - eexists. split; [reflexivity|]. simpl. repeat split; eauto.
  - assert (Hlen : zlen (py_set D) = zlen have).
    { unfold zlen. f_equal. apply same_set_length; [apply py_set_NoDup|exact Hnd|].
      intros x. rewrite py_set_In. apply Hset. }
    replace (negb (m =? 0) && (zlen (py_set D) >? m)) with false.
    + rewrite Hdelta. eexists. split; [reflexivity|]. simpl. repeat split; eauto.
    + symmetry. destruct Hcap as [->|Hle]; [reflexivity|].
      rewrite Hlen. replace (zlen have >? m) with false; [apply andb_false_r|].
      symmetry. rewrite Z.gtb_ltb. apply Z.ltb_ge. exact Hle.
Qed.

Lemma unchanged_is_noop_witness :
  delta (py_set ["10.0.0.0/8"]) ["10.0.0.0/8"] = ([], []) /\
  exists r, apply_delta "111" Demo.east "pl-4" "d" ["10.0.0.0/8"] None "111" []
            = (Ok r, [CDescribeManaged "us-east-1" (Some ["pl-4"]) None;
                      CGetEntries "us-east-1" "pl-4" None]) /\
    changed r = false /\ from_version r = 3 /\ to_version r = 3 /\
    added r = [] /\ removed r = [] /\
    exists ext, [CDescribeManaged "us-east-1" (Some ["pl-4"]) None;
                 CGetEntries "us-east-1" "pl-4" None] = [] ++ ext /\
                forallb not_modify ext = true.
Proof.
  apply (unchanged_is_noop "111" Demo.east "pl-4" "d" ["10.0.0.0/8"] None "111" []
           3 ["10.0.0.0/8"] 2 "111").
  - vm_compute. reflexivity.
  - intros x. reflexivity.
  - right. vm_compute. discriminate.
Defined.

Lemma get_pl_entries_fields acct ec2 id name tr p tr1 v have m owner tr2 :
  _describe_pl_with_retries acct ec2 (Some id) name LOCATE_ATTEMPTS tr = (Ok p, tr1) ->
  get_pl_entries acct ec2 id name tr = (Ok (v, have, m, owner), tr2) ->
  v = z_or (Version p) 1 /\ m = z_or (MaxEntries p) 0 /\ owner = str_or (OwnerId p) "".
Proof.
  intros H1 H2. unfold get_pl_entries, bind in H2. rewrite H1 in H2.
  destruct (entries_loop ec2 id PAGE_FUEL None [] tr1) as [[h|e] tr3]; [|discriminate].
  inversion H2; subst. auto.
Qed.

(** Without a capacity the body never raises the capacity error. *)
Lemma safe_body_unbounded acct ec2 id desc D name acct_owner v have owner :
  Safe any_call not_capacity
    (apply_delta_body acct ec2 id desc D name acct_owner v have 0 owner).
Proof.
  unfold apply_delta_body. simpl (negb (0 =? 0)). rewrite andb_false_l.
  destruct (delta (py_set D) have) as [to_add to_remove].
  safe_tac. all: apply safe_batch_loop.
Qed.

(** C10: when the located record has no [Version], the entry reader
    reports version 1; when its [MaxEntries] is absent or 0, the reader
    reports 0 and [apply_delta] never raises the capacity error, whatever
    the size of the desired list. *)
Theorem missing_fields_defaults acct ec2 id name tr p tr1 :
  _describe_pl_with_retries acct ec2 (Some id) name LOCATE_ATTEMPTS tr = (Ok p, tr1) ->
  (forall v have m owner tr2,
     get_pl_entries acct ec2 id name tr = (Ok (v, have, m, owner), tr2) ->
     (Version p = None -> v = 1) /\
     (MaxEntries p = None \/ MaxEntries p = Some 0 -> m = 0)) /\
  (MaxEntries p = None \/ MaxEntries p = Some 0 ->
   forall desc D acct_owner n k i,
     fst (apply_delta acct ec2 id desc D name acct_owner tr) <> Err (CapacityError n k i)).
Proof.
  intros Hp. split.
  - intros v have m owner tr2 H.
    destruct (get_pl_entries_fields _ _ _ _ _ _ _ _ _ _ _ _ Hp H) as (-> & -> & _).
    split; [intros ->; reflexivity|]. intros [->| ->]; reflexivity.
  - intros Hmax desc D acct_owner n k i.
    destruct (get_pl_entries acct ec2 id name tr) as [[[[[v have] m] owner]|e] tr2] eqn:E.
    + destruct (get_pl_entries_fields _ _ _ _ _ _ _ _ _ _ _ _ Hp E) as (_ & Hm & _).
      assert (Hm0 : m = 0) by (destruct Hmax as [Hn|Hn]; rewrite Hn in Hm; exact Hm).
      rewrite Hm0 in E. clear Hm Hm0.
      rewrite (apply_delta_ok _ _ _ _ _ _ _ _ _ _ _ _ _ E).
      destruct (apply_delta_body acct ec2 id desc D name acct_owner v have 0 owner tr2)
        as [r tr3] eqn:E2. simpl. intros ->.
      destruct (safe_body_unbounded acct ec2 id desc D name acct_owner v have owner _ _ _ E2)
        as [_ HQ].
      specialize (HQ _ eq_refl). discriminate.
    + unfold apply_delta, bind. rewrite E. simpl. intros He. inversion He; subst.
      destruct (safe_get_pl_entries acct ec2 id name _ _ _ E) as [_ HQ].
      specialize (HQ _ eq_refl). discriminate.
Qed.

Lemma missing_fields_defaults_witness :
  (forall v have m owner tr2,
     get_pl_entries "111" Demo.east "pl-0" None [] = (Ok (v, have, m, owner), tr2) ->
     (@None Z = None -> v = 1) /\ (@None Z = None \/ @None Z = Some 0 -> m = 0)) /\
  (@None Z = None \/ @None Z = Some 0 ->
   forall desc D acct_owner n k i,
     fst (apply_delta "111" Demo.east "pl-0" desc D None acct_owner []) <> Err (CapacityError n k i)).
Proof.
  apply (missing_fields_defaults "111" Demo.east "pl-0" None []
           (Demo.mk_pl "pl-0" "cf-v0" None "111" None)
           [CDescribeManaged "us-east-1" (Some ["pl-0"]) None]).
  vm_compute. reflexivity.
Defined.

(** ** Discovery *)

Lemma paginate_first describe absorb fuel token st tr :
  paginate describe absorb (S fuel) token st tr
  = match describe token tr with
    | (Ok resp, tr1) =>
        let st' := fold_left absorb (_pls resp) st in
        if ostr_truthy (NextToken resp)
        then paginate describe absorb fuel (NextToken resp) st' tr1
        else (Ok st', tr1)
    | (Err e, tr1) => (Err e, tr1)
    end.
Proof.
  simpl. unfold bind. destruct (describe token tr) as [[resp|e] tr1]; [|reflexivity].
  destruct (ostr_truthy (NextToken resp)); reflexivity.
Qed.

(** C3 (as stated it fails): a refused describe call is indistinguishable
    from an empty listing: the region [Demo.denied], where every discovery
    call fails, lists exactly what the empty region lists, with no error. *)
Lemma describe_error_swallowed :
  _list_all_pls Demo.denied [] = _list_all_pls Demo.empty_region [] /\
  _list_all_pls Demo.denied []
  = (Ok [], [CDescribeManaged "us-east-1" None None; CDescribePrefix "us-east-1" None]).
Proof. split; vm_compute; reflexivity. Qed.

(** C3 (amended): every [ClientError] of either discovery call, at any
    point of a listing, is caught by its wrapper and replaced by an empty
    page without continuation token: the call is recorded, the wrapper
    returns that empty page, and the pagination loop it serves stops there
    with the records merged so far and no error, as after a last page.  So
    a client whose discovery calls all fail makes [_list_all_pls] return
    no record and no error, as for a region without lists. *)
Theorem describe_errors_to_empty (ec2 : client) :
  (forall tr ids tok msg,
     let kw_ids := match ids with Some ((_ :: _) as l) => Some l | _ => None end in
     let kw_tok := if ostr_truthy tok then tok else None in
     describe_managed_prefix_lists ec2 tr kw_ids kw_tok = Fail msg ->
     _describe_managed_pls ec2 ids tok tr
     = (Ok (mkPage (Some []) None None),
        tr ++ [CDescribeManaged (region_name ec2) kw_ids kw_tok])) /\
  (forall tr tok msg,
     let kw_tok := if ostr_truthy tok then tok else None in
     describe_prefix_lists ec2 tr kw_tok = Fail msg ->
     _describe_prefix_pls ec2 tok tr
     = (Ok (mkPage None (Some []) None),
        tr ++ [CDescribePrefix (region_name ec2) kw_tok])) /\
  (forall fuel tok st tr msg,
     let kw_tok := if ostr_truthy tok then tok else None in
     describe_managed_prefix_lists ec2 tr None kw_tok = Fail msg ->
     paginate (_describe_managed_pls ec2 None) absorb_managed (S fuel) tok st tr
     = (Ok st, tr ++ [CDescribeManaged (region_name ec2) None kw_tok])) /\
  (forall fuel tok st tr msg,
     let kw_tok := if ostr_truthy tok then tok else None in
     describe_prefix_lists ec2 tr kw_tok = Fail msg ->
     paginate (_describe_prefix_pls ec2) absorb_prefix (S fuel) tok st tr
     = (Ok st, tr ++ [CDescribePrefix (region_name ec2) kw_tok])) /\
  ((forall t i k, exists msg, describe_managed_prefix_lists ec2 t i k = Fail msg) ->
   (forall t k, exists msg, describe_prefix_lists ec2 t k = Fail msg) ->
   forall tr,
   _list_all_pls ec2 tr
   = (Ok [], tr ++ [CDescribeManaged (region_name ec2) None None;
                    CDescribePrefix (region_name ec2) None])).
Proof.
  assert (H1 : forall tr ids tok msg,
     let kw_ids := match ids with Some ((_ :: _) as l) => Some l | _ => None end in
     let kw_tok := if ostr_truthy tok then tok else None in
     describe_managed_prefix_lists ec2 tr kw_ids kw_tok = Fail msg ->
     _describe_managed_pls ec2 ids tok tr
     = (Ok (mkPage (Some []) None None),
        tr ++ [CDescribeManaged (region_name ec2) kw_ids kw_tok])).
  { intros tr ids tok msg kw_ids kw_tok Hf.
    unfold _describe_managed_pls, try_client, ec2_call. fold kw_ids kw_tok.
    rewrite Hf. reflexivity. }
  assert (H2 : forall tr tok msg,
     let kw_tok := if ostr_truthy tok then tok else None in
     describe_prefix_lists ec2 tr kw_tok = Fail msg ->
     _describe_prefix_pls ec2 tok tr
     = (Ok (mkPage None (Some []) None),
        tr ++ [CDescribePrefix (region_name ec2) kw_tok])).
  { intros tr tok msg kw_tok Hf.
    unfold _describe_prefix_pls, try_client, ec2_call. fold kw_tok.
    rewrite Hf. reflexivity. }
  assert (H3 : forall fuel tok st tr msg,
     let kw_tok := if ostr_truthy tok then tok else None in
     describe_managed_prefix_lists ec2 tr None kw_tok = Fail msg ->
     paginate (_describe_managed_pls ec2 None) absorb_managed (S fuel) tok st tr
     = (Ok st, tr ++ [CDescribeManaged (region_name ec2) None kw_tok])).
  { intros fuel tok st tr msg kw_tok Hf.
    rewrite paginate_first, (H1 tr None tok msg Hf). reflexivity. }
  assert (H4 : forall fuel tok st tr msg,
     let kw_tok := if ostr_truthy tok then tok else None in
     describe_prefix_lists ec2 tr kw_tok = Fail msg ->
     paginate (_describe_prefix_pls ec2) absorb_prefix (S fuel) tok st tr
     = (Ok st, tr ++ [CDescribePrefix (region_name ec2) kw_tok])).
  { intros fuel tok st tr msg kw_tok Hf.
    rewrite paginate_first, (H2 tr tok msg Hf). reflexivity. }
  split; [exact H1|]. split; [exact H2|]. split; [exact H3|]. split; [exact H4|].
  intros Hm Hp tr.
  unfold _list_all_pls, bind. cbv beta. unfold PAGE_FUEL.
  destruct (Hm tr None None) as [m1 Hf1].
  rewrite (H3 _ None ([], []) tr m1 Hf1). cbn -[paginate].
  destruct (Hp (tr ++ [CDescribeManaged (region_name ec2) None None]) None) as [m2 Hf2].
  rewrite (H4 _ None ([], []) _ m2 Hf2). cbn -[paginate].
  rewrite <- app_assoc. reflexivity.
Qed.

(** On [Demo.flaky], the refused second page ends the first loop after
    [pl-4] with no error, and the listing goes on to the legacy API. *)
Lemma describe_errors_to_empty_witness :
  paginate (_describe_managed_pls Demo.flaky None) absorb_managed 998%nat (Some "p2")
    (["pl-4"], [Demo.mk_pl "pl-4" "cf-v4" None "111" (Some 3%Z)])
    [CDescribeManaged "us-east-1" None None]
  = (Ok (["pl-4"], [Demo.mk_pl "pl-4" "cf-v4" None "111" (Some 3%Z)]),
     [CDescribeManaged "us-east-1" None None; CDescribeManaged "us-east-1" None (Some "p2")]) /\
  (forall tr,
   _list_all_pls Demo.denied tr
   = (Ok [], tr ++ [CDescribeManaged "us-east-1" None None; CDescribePrefix "us-east-1" None])) /\
  _list_all_pls Demo.flaky []
  = (Ok [Demo.mk_pl "pl-4" "cf-v4" None "111" (Some 3%Z);
         normalize_pl "pl-6" (Demo.mk_pl "pl-6" "cf-v6" None "111" (Some 5%Z))],
     [CDescribeManaged "us-east-1" None None; CDescribeManaged "us-east-1" None (Some "p2");
      CDescribePrefix "us-east-1" None]).
Proof.
  split; [|split].
  - rewrite (proj1 (proj2 (proj2 (describe_errors_to_empty Demo.flaky)))
             997%nat (Some "p2") _ _ "An error occurred (RequestLimitExceeded)");
      reflexivity.
  - apply (proj2 (proj2 (proj2 (proj2 (describe_errors_to_empty Demo.denied))))).
    + intros t i k. eexists. reflexivity.
    + intros t k. eexists. reflexivity.
  - vm_compute. reflexivity.
Defined.

(** The two loop bodies of [_list_all_pls] differ only in the record they
    append. *)
Definition absorb_with (f : string -> pl -> pl) (st : merge_state) (p : pl) : merge_state :=
  let '(seen, out) := st in
  match PrefixListId p with
  | Some pid =>
      if str_truthy pid && negb (str_mem pid seen) then (pid :: seen, out ++ [f pid p]) else st
  | None => st
  end.

Lemma absorb_managed_with st p : absorb_managed st p = absorb_with (fun _ q => q) st p.
Proof. reflexivity. Qed.

Lemma absorb_prefix_with st p : absorb_prefix st p = absorb_with normalize_pl st p.
Proof. reflexivity. Qed.

Lemma fold_left_ext_pointwise {A B} (f g : A -> B -> A) (l : list B) (a : A) :
  (forall x y, f x y = g x y) -> fold_left f l a = fold_left g l a.
Proof.
  intros H. revert a. induction l as [|y l IH]; intros a; simpl; [reflexivity|].
  rewrite H. apply IH.
Qed.

Lemma has_id_true s p : has_id s p = true <-> PrefixListId p = Some s.
Proof.
  unfold has_id, opt_str_eqb. destruct (PrefixListId p) as [t|]; [|split; discriminate].
  rewrite String.eqb_eq. split; [intros ->|intros H; inversion H]; reflexivity.
Qed.

Lemma NoDup_map_same {A B} (f : A -> B) (l : list A) (x y : A) :
  NoDup (map f l) -> In x l -> In y l -> f x = f y -> x = y.
Proof.
  induction l as [|z l IH]; simpl; [tauto|]. intros Hnd Hx Hy Hf.
  inversion Hnd as [|b bs Hnotin Hnd']; subst.
  destruct Hx as [<-|Hx], Hy as [<-|Hy]; auto.
  - exfalso. apply Hnotin. rewrite Hf. apply in_map, Hy.
  - exfalso. apply Hnotin. rewrite <- Hf. apply in_map, Hx.
Qed.

Section Merge.
Variable f : string -> pl -> pl.
Hypothesis f_id : forall s p, PrefixListId p = Some s -> PrefixListId (f s p) = Some s.

(** The invariant of the merge state: [seen] holds the ids of [out],
    which are distinct and non-empty. *)
Definition merge_inv (st : merge_state) : Prop :=
  (forall s, In s (fst st) <-> exists q, In q (snd st) /\ PrefixListId q = Some s) /\
  NoDup (map PrefixListId (snd st)) /\
  (forall q, In q (snd st) -> exists s, PrefixListId q = Some s /\ str_truthy s = true).

Lemma merge_inv_nil : merge_inv ([], []).
Proof.
  split; [|split; [constructor|]]; simpl.
  - intros s. split; [tauto|]. intros (q & [] & _).
  - tauto.
Qed.

Lemma absorb_cases st p :
  absorb_with f st p = st \/
  exists pid, PrefixListId p = Some pid /\ str_truthy pid = true /\ ~ In pid (fst st) /\
    absorb_with f st p = (pid :: fst st, snd st ++ [f pid p]).
Proof.
  destruct st as [seen out]. unfold absorb_with.
  destruct (PrefixListId p) as [pid|] eqn:Hp; [|left; reflexivity].
  destruct (str_truthy pid) eqn:Ht; simpl; [|left; reflexivity].
  destruct (str_mem pid seen) eqn:Hm; simpl; [left; reflexivity|].
  right. exists pid. repeat split; auto. apply str_mem_false, Hm.
Qed.

Lemma absorb_inv st p : merge_inv st -> merge_inv (absorb_with f st p).
Proof.
  intros Hinv. destruct (absorb_cases st p) as [->|(pid & Hp & Ht & Hn & ->)]; [exact Hinv|].
  destruct st as [seen out]. destruct Hinv as (Hiff & Hnd & Htr). unfold merge_inv. simpl in *.
  split; [|split].
  - intros s. split.
    + intros [<-|Hs].
      * exists (f pid p). rewrite in_app_iff. simpl. auto.
      * destruct (proj1 (Hiff s) Hs) as (q & Hq & Hqs). exists q. rewrite in_app_iff. auto.
    + intros (q & Hq & Hqs). apply in_app_iff in Hq. destruct Hq as [Hq|[<-|[]]].
      * right. apply Hiff. eauto.
      * left. rewrite (f_id _ _ Hp) in Hqs. congruence.
  - rewrite map_app. simpl. apply NoDup_app; [exact Hnd|constructor; [tauto|constructor]|].
    intros x Hx [<-|[]]. rewrite (f_id _ _ Hp) in Hx. apply in_map_iff in Hx.
    destruct Hx as (q & Hqs & Hq). apply Hn, Hiff. eauto.
  - intros q Hq. apply in_app_iff in Hq. destruct Hq as [Hq|[<-|[]]]; eauto.
Qed.

Lemma fold_inv l st : merge_inv st -> merge_inv (fold_left (absorb_with f) l st).
Proof.
  revert st. induction l as [|p l IH]; intros st H; simpl; [exact H|].
  apply IH, absorb_inv, H.
Qed.

Lemma fold_grows l st : exists ext, snd (fold_left (absorb_with f) l st) = snd st ++ ext.
Proof.
  revert st. induction l as [|p l IH]; intros st; simpl.
  - exists []. rewrite app_nil_r. reflexivity.
  - destruct (IH (absorb_with f st p)) as [ext Hext]. rewrite Hext.
    destruct (absorb_cases st p) as [->|(pid & _ & _ & _ & ->)].
    + exists ext. reflexivity.
    + exists ([f pid p] ++ ext). simpl. rewrite <- app_assoc. reflexivity.
Qed.

Lemma fold_origin l st q :
  In q (snd (fold_left (absorb_with f) l st)) ->
  In q (snd st) \/ exists p s, In p l /\ PrefixListId p = Some s /\ q = f s p.
Proof.
  revert st. induction l as [|p l IH]; intros st Hq; simpl in *; [auto|].
  destruct (IH _ Hq) as [Hq'|(p' & s & Hp' & Hs & ->)].
  - destruct (absorb_cases st p) as [E|(pid & Hp & _ & _ & E)]; rewrite E in Hq'; [auto|].
    simpl in Hq'. apply in_app_iff in Hq'. destruct Hq' as [Hq'|[<-|[]]]; [auto|].
    right. exists p, pid. auto.
  - right. exists p', s. auto.
Qed.

Lemma fold_seen_origin l st s :
  In s (fst (fold_left (absorb_with f) l st)) ->
  In s (fst st) \/ exists p, In p l /\ PrefixListId p = Some s.
Proof.
  revert st. induction l as [|p l IH]; intros st Hs; simpl in *; [auto|].
  destruct (IH _ Hs) as [Hs'|(p' & Hp' & Hps)].
  - destruct (absorb_cases st p) as [E|(pid & Hp & _ & _ & E)]; rewrite E in Hs'; [auto|].
    simpl in Hs'. destruct Hs' as [<-|Hs']; [right; exists p; auto|auto].
  - right. exists p'. auto.
Qed.

Lemma fold_first_seen l st s p :
  merge_inv st -> str_truthy s = true -> ~ In s (fst st) ->
  find (has_id s) l = Some p -> In (f s p) (snd (fold_left (absorb_with f) l st)).
Proof.
  revert st. induction l as [|p0 l IH]; intros st Hinv Ht Hn Hfind; simpl in *; [discriminate|].
  destruct (has_id s p0) eqn:Hh.
  - inversion Hfind; subst p0. apply has_id_true in Hh.
    destruct (fold_grows l (absorb_with f st p)) as [ext ->]. apply in_app_iff. left.
    destruct (absorb_cases st p) as [E|(pid & Hp & _ & _ & ->)].
    + exfalso. unfold absorb_with in E. destruct st as [seen out]. simpl in Hn.
      rewrite Hh, Ht in E. apply str_mem_false in Hn. rewrite Hn in E. simpl in E.
      inversion E as [[Hc Hc']]. apply (f_equal (@length _)) in Hc'.
      rewrite length_app in Hc'. simpl in Hc'. lia.
    + rewrite Hh in Hp. inversion Hp; subst pid. simpl. apply in_app_iff. simpl. auto.
  - apply IH; [apply absorb_inv, Hinv|exact Ht| |exact Hfind].
    destruct (absorb_cases st p0) as [->|(pid & Hp & _ & _ & ->)]; [exact Hn|].
    simpl. intros [Heq|Hs]; [subst pid|contradiction].
    assert (has_id s p0 = true) by (apply has_id_true; exact Hp). congruence.
Qed.

End Merge.

Lemma paginate_fold describe absorb fuel token st tr st' tr' :
  paginate describe absorb fuel token st tr = (Ok st', tr') ->
  exists l, st' = fold_left absorb l st.
Proof.
  revert token st tr. induction fuel as [|f IH]; intros token st tr; simpl; [discriminate|].
  unfold bind. destruct (describe token tr) as [[resp|e] tr1]; [|discriminate].
  destruct (ostr_truthy (NextToken resp)).
  - intros H. destruct (IH _ _ _ H) as [l ->]. exists (_pls resp ++ l).
    rewrite fold_left_app. reflexivity.
  - intros H. injection H as <- _. exists (_pls resp). reflexivity.
Qed.

(** [_list_all_pls] returns the merge of the records the first API listed
    over all its pages with the records the second API listed. *)
Lemma list_all_pls_merge ec2 tr out tr' :
  _list_all_pls ec2 tr = (Ok out, tr') -> exists l1 l2, out = merge_discovery l1 l2.
Proof.
  unfold _list_all_pls, bind.
  destruct (paginate (_describe_managed_pls ec2 None) absorb_managed PAGE_FUEL None ([], []) tr)
    as [[st1|e] tr1] eqn:P1; [|discriminate].
  destruct (paginate_fold _ _ _ _ _ _ _ _ P1) as [l1 ->].
  destruct (paginate (_describe_prefix_pls ec2) absorb_prefix PAGE_FUEL None _ tr1)
    as [[st2|e] tr2] eqn:P2; [|discriminate].
  destruct (paginate_fold _ _ _ _ _ _ _ _ P2) as [l2 ->].
  intros H. injection H as <- _. exists l1, l2. reflexivity.
Qed.

(** C9: the merged view of the records [l1] returned by
    [describe_managed_prefix_lists] and [l2] returned by
    [describe_prefix_lists] holds at most one record per identifier, each
    with a non-empty identifier; every record of the view is a record of
    [l1] as returned, or the normalised record of one of [l2]; and for each
    non-empty identifier seen in either list, the one record kept is the
    first record of [l1] with it, or when [l1] has none, the normalised
    first record of [l2] with it. *)
Theorem discovery_merge (l1 l2 : list pl) :
  let out := merge_discovery l1 l2 in
  NoDup (map PrefixListId out) /\
  (forall q, In q out -> exists s, PrefixListId q = Some s /\ str_truthy s = true) /\
  (forall q, In q out ->
     In q l1 \/ exists p s, In p l2 /\ PrefixListId p = Some s /\ q = normalize_pl s p) /\
  (forall s, str_truthy s = true ->
     (forall p, find (has_id s) l1 = Some p ->
        In p out /\ forall q, In q out -> PrefixListId q = Some s -> q = p) /\
     (forall p, find (has_id s) l1 = None -> find (has_id s) l2 = Some p ->
        In (normalize_pl s p) out /\
        forall q, In q out -> PrefixListId q = Some s -> q = normalize_pl s p)).
Proof.
  intros out. unfold out, merge_discovery.
  rewrite (fold_left_ext_pointwise _ _ l1 _ absorb_managed_with).
  rewrite (fold_left_ext_pointwise _ _ l2 _ absorb_prefix_with).
  assert (Hf1 : forall s p, PrefixListId p = Some s -> PrefixListId ((fun _ q => q) s p) = Some s)
    by auto.
  assert (Hf2 : forall s p, PrefixListId p = Some s -> PrefixListId (normalize_pl s p) = Some s)
    by reflexivity.
  set (st1 := fold_left (absorb_with (fun _ q => q)) l1 ([], [])).
  assert (Hinv1 : merge_inv st1) by (apply fold_inv; [exact Hf1|apply merge_inv_nil]).
  assert (Hinv : merge_inv (fold_left (absorb_with normalize_pl) l2 st1))
    by (apply fold_inv; [exact Hf2|exact Hinv1]).
  set (fin := fold_left (absorb_with normalize_pl) l2 st1) in *.
  destruct Hinv as (Hiff & Hnd & Htr).
  assert (Hunique : forall s p, In p (snd fin) -> PrefixListId p = Some s ->
                    forall q, In q (snd fin) -> PrefixListId q = Some s -> q = p).
  { intros s p Hp Hps q Hq Hqs. eapply NoDup_map_same; [exact Hnd|exact Hq|exact Hp|congruence]. }
  split; [exact Hnd|]. split; [exact Htr|]. split.
  - intros q Hq. destruct (fold_origin normalize_pl l2 st1 q Hq) as [Hq1|Hq2]; [left|right; exact Hq2].
    destruct (fold_origin (fun _ q => q) l1 ([], []) q Hq1) as [[]|(p & s & Hp & _ & ->)]. exact Hp.
  - intros s Hs. split.
    + intros p Hfind.
      assert (Hps : PrefixListId p = Some s) by (apply has_id_true, (find_some _ _ Hfind)).
      assert (Hin : In p (snd fin)).
      { destruct (fold_grows normalize_pl l2 st1) as [ext Hext]. unfold fin. rewrite Hext.
        apply in_app_iff. left.
        exact (fold_first_seen _ Hf1 l1 ([], []) s p merge_inv_nil Hs (fun H => H) Hfind). }
      split; [exact Hin|]. apply (Hunique s p Hin Hps).
    + intros p Hnone Hfind.
      assert (Hps : PrefixListId p = Some s) by (apply has_id_true, (find_some _ _ Hfind)).
      assert (Hn1 : ~ In s (fst st1)).
      { intros Hs1. destruct (fold_seen_origin _ _ _ _ Hs1) as [[]|(p' & Hp' & Hp's)].
        assert (has_id s p' = true) by (apply has_id_true; exact Hp's).
        eapply find_none in Hnone; [|exact Hp']. congruence. }
      assert (Hin : In (normalize_pl s p) (snd fin))
        by exact (fold_first_seen _ Hf2 l2 st1 s p Hinv1 Hs Hn1 Hfind).
      split; [exact Hin|]. apply (Hunique s _ Hin). reflexivity.
Qed.

Lemma discovery_merge_witness :
  let l1 := [Demo.mk_pl "pl-4" "cf-v4" None "111" (Some 3)] in
  let l2 := [Demo.mk_pl "pl-4" "legacy-v4" None "111" (Some 1);
             Demo.mk_pl "pl-9" "legacy" None "111" (Some 2)] in
  In (Demo.mk_pl "pl-4" "cf-v4" None "111" (Some 3)) (merge_discovery l1 l2) /\
  In (normalize_pl "pl-9" (Demo.mk_pl "pl-9" "legacy" None "111" (Some 2)))
     (merge_discovery l1 l2).
Proof.
  intros l1 l2.
  destruct (discovery_merge l1 l2) as (_ & _ & _ & H).
  split.
  - exact (proj1 (proj1 (H "pl-4" eq_refl) _ eq_refl)).
  - exact (proj1 (proj2 (H "pl-9" eq_refl) _ eq_refl eq_refl)).
Defined.

(** ** Batches *)

Lemma chunks_go_concat {A} (n fuel : nat) (l : list A) : concat (chunks_go n fuel l) = l.
Proof.
  revert l. induction fuel as [|f IH]; intros l; destruct l as [|x l']; simpl;
    try reflexivity.
  - rewrite app_nil_r. reflexivity.
  - rewrite IH. apply firstn_skipn.
Qed.

Lemma chunks_go_bounded {A} (n fuel : nat) (l : list A) :
  (0 < n)%nat -> (length l <= fuel * n)%nat ->
  forall b, In b (chunks_go n fuel l) -> b <> [] /\ (length b <= n)%nat.
Proof.
  intros Hn. revert l. induction fuel as [|f IH]; intros l Hlen b Hb.
  - destruct l; simpl in *; [contradiction|lia].
  - destruct l as [|x l']; simpl in Hb; [contradiction|].
    destruct Hb as [<-|Hb].
    + destruct n as [|n]; [lia|]. simpl. split; [discriminate|].
      rewrite length_firstn. lia.
    + apply (IH (skipn n (x :: l'))); [|exact Hb].
      rewrite length_skipn. cbn [length] in *. nia.
Qed.

Lemma chunks_bounded {A} (n : nat) (l : list A) :
  (0 < n)%nat -> forall b, In b (_chunks n l) -> b <> [] /\ (length b <= n)%nat.
Proof.
  intros Hn. apply chunks_go_bounded; [exact Hn|].
  assert (length l * 1 <= length l * n)%nat by (apply Nat.mul_le_mono_l; lia). lia.
Qed.

Lemma chunks_85 {A} (l : list A) :
  length l = 85%nat -> map (@length A) (_chunks MAX_BATCH l) = [80; 5]%nat.
Proof.
  intros Hl. unfold _chunks. rewrite Hl.
  destruct l as [|x l]; [discriminate|]. change (chunks_go MAX_BATCH 85 (x :: l))
    with (firstn 80 (x :: l) :: chunks_go MAX_BATCH 84 (skipn 80 (x :: l))).
  assert (H5 : length (skipn 80 (x :: l)) = 5%nat) by (rewrite length_skipn, Hl; reflexivity).
  destruct (skipn 80 (x :: l)) as [|y l'] eqn:E; [discriminate|].
  change (chunks_go MAX_BATCH 84 (y :: l'))
    with (firstn 80 (y :: l') :: chunks_go MAX_BATCH 83 (skipn 80 (y :: l'))).
  rewrite (skipn_all2 (y :: l')) by lia.
  cbn [chunks_go map]. rewrite !length_firstn, H5, Hl. reflexivity.
Qed.

Lemma modify_first_ok acct ec2 id name ab rb vh tr v :
  modify_managed_prefix_list ec2 tr (mkModify id vh (nonempty ab) (nonempty rb)) = Resp v ->
  _modify acct ec2 id name ab rb vh tr
  = (Ok v, tr ++ [CModify (region_name ec2) (mkModify id vh (nonempty ab) (nonempty rb))]).
Proof. intros H. unfold _modify, try_client, ec2_call. rewrite H. reflexivity. Qed.

Lemma batch_at {A} (bs : list (list A)) (i : nat) :
  (forall b, In b bs -> b <> []) ->
  nonempty (if (i <? length bs)%nat then nth_error bs i else None) = nth_error bs i.
Proof.
  intros Hne. destruct (Nat.ltb_spec i (length bs)) as [Hlt|Hge].
  - destruct (nth_error bs i) as [b|] eqn:E; [|reflexivity].
    destruct b as [|x b]; [|reflexivity].
    exfalso. apply (Hne []); [eapply nth_error_In; exact E|reflexivity].
  - symmetry. apply nth_error_None. exact Hge.
Qed.

Lemma nth_error_past {A} (bs : list A) (i j : nat) :
  (length bs <= i)%nat -> (length bs <= j)%nat -> nth_error bs i = nth_error bs j.
Proof. intros Hi Hj. rewrite (proj2 (nth_error_None _ _) Hi), (proj2 (nth_error_None _ _) Hj). reflexivity. Qed.

Section BatchLoop.
Variables (acct : string) (ec2 : client) (id : string) (name : option string).
Variables (AB : list (list add_entry)) (RB : list (list string)).
Hypothesis modify_total : forall t kw, exists v, modify_managed_prefix_list ec2 t kw = Resp v.
Hypothesis AB_nonempty : forall b, In b AB -> b <> [].
Hypothesis RB_nonempty : forall b, In b RB -> b <> [].

(** With a provider that accepts every modify call, the loop issues one
    call per index: call [k] carries add batch [ai + k], remove batch
    [ri + k], and as version the answer to call [k - 1]. *)
Lemma batch_loop_calls (n ai ri : nat) (v : Z) (tr : trace) :
  n = Nat.max (length AB - ai) (length RB - ri) ->
  exists kws vend,
    batch_loop acct ec2 id name AB RB n ai ri v tr
    = (Ok vend, tr ++ map (CModify (region_name ec2)) kws) /\
    length kws = n /\
    (forall k kw, nth_error kws k = Some kw ->
       MPrefixListId kw = id /\
       MAddEntries kw = nth_error AB (ai + k) /\
       MRemoveEntries kw = nth_error RB (ri + k) /\
       modify_managed_prefix_list ec2 (tr ++ map (CModify (region_name ec2)) (firstn k kws)) kw
       = Resp (match nth_error kws (S k) with
               | Some kw' => MCurrentVersion kw'
               | None => vend
               end)) /\
    match kws with [] => vend = v | kw0 :: _ => MCurrentVersion kw0 = v end.
Proof.
  revert ai ri v tr. induction n as [|n IH]; intros ai ri v tr Hn.
  - exists [], v. simpl. rewrite app_nil_r.
    split; [reflexivity|]. split; [reflexivity|]. split; [|reflexivity].
    intros k kw Hk. destruct k; discriminate.
  - simpl.
    assert (Hcond : ((ai <? length AB)%nat || (ri <? length RB)%nat) = true).
    { apply orb_true_iff. destruct (Nat.ltb_spec ai (length AB)); [auto|].
      destruct (Nat.ltb_spec ri (length RB)); [auto|]. lia. }
    rewrite Hcond.
    set (ab := if (ai <? length AB)%nat then nth_error AB ai else None).
    set (rb := if (ri <? length RB)%nat then nth_error RB ri else None).
    assert (Hab : nonempty ab = nth_error AB ai) by apply (batch_at AB ai AB_nonempty).
    assert (Hrb : nonempty rb = nth_error RB ri) by apply (batch_at RB ri RB_nonempty).
    set (kw0 := mkModify id v (nonempty ab) (nonempty rb)).
    destruct (modify_total tr kw0) as [v1 Hv1].
    unfold bind. rewrite (modify_first_ok _ _ _ _ _ _ _ _ _ Hv1). fold kw0.
    set (ai' := if (ai <? length AB)%nat then S ai else ai).
    set (ri' := if (ri <? length RB)%nat then S ri else ri).
    assert (Hai : forall k, nth_error AB (ai' + k) = nth_error AB (ai + S k)).
    { intros k. unfold ai'. destruct (Nat.ltb_spec ai (length AB)).
      - f_equal. lia.
      - apply nth_error_past; lia. }
    assert (Hri : forall k, nth_error RB (ri' + k) = nth_error RB (ri + S k)).
    { intros k. unfold ri'. destruct (Nat.ltb_spec ri (length RB)).
      - f_equal. lia.
      - apply nth_error_past; lia. }
    assert (Hn' : n = Nat.max (length AB - ai') (length RB - ri')).
    { unfold ai', ri'. destruct (Nat.ltb_spec ai (length AB)), (Nat.ltb_spec ri (length RB)); lia. }
    destruct (IH ai' ri' v1 (tr ++ [CModify (region_name ec2) kw0]) Hn')
      as (kws & vend & Hrun & Hlen & Hcalls & Hfirst).
    exists (kw0 :: kws), vend. rewrite Hrun. split; [|split; [|split]].
    + simpl. rewrite <- app_assoc. reflexivity.
    + simpl. rewrite Hlen. reflexivity.
    + intros [|k] kw Hk.
      * simpl in Hk. inversion Hk; subst kw. rewrite !Nat.add_0_r.
        split; [reflexivity|]. split; [exact Hab|]. split; [exact Hrb|].
        simpl. rewrite app_nil_r. rewrite Hv1. destruct kws as [|kw1 kws]; simpl; congruence.
      * simpl in Hk. destruct (Hcalls k kw Hk) as (H1 & H2 & H3 & H4).
        split; [exact H1|]. split; [rewrite H2; apply Hai|]. split; [rewrite H3; apply Hri|].
        simpl. rewrite <- app_assoc in H4. exact H4.
    + reflexivity.
Qed.

End BatchLoop.

Lemma match_both_nil {A B C} (l1 : list A) (l2 : list B) (x y : C) :
  l1 <> [] \/ l2 <> [] -> match l1, l2 with [], [] => x | _, _ => y end = y.
Proof. destruct l1, l2; intros H; try reflexivity. destruct H; congruence. Qed.

Lemma capacity_ok (D : list string) (m : Z) :
  m = 0 \/ zlen (py_set D) <= m -> negb (m =? 0) && (zlen (py_set D) >? m) = false.
Proof.
  intros [->|Hle]; [reflexivity|].
  rewrite Z.gtb_ltb. replace (m <? zlen (py_set D)) with false; [apply andb_false_r|].
  symmetry. apply Z.ltb_ge. exact Hle.
Qed.

(** C6: for an owned list within capacity and a non-empty delta, the add
    list and the remove list are cut independently into consecutive batches
    of 1 to [MAX_BATCH] = 80 entries, whose concatenation is the list;
    with a provider that accepts every modify call, [apply_delta] issues
    [max (#add batches) (#remove batches)] calls, call [k] carrying the
    [k]-th add batch and the [k]-th remove batch (when they exist), the
    first with the list's version and each next one with the version the
    previous call returned, the last returned version ending the result;
    85 adds and no removes make two add batches, of 80 then 5 entries. *)
Theorem batches_chained acct ec2 id desc D name acct_owner v have m owner tr
    to_add to_remove :
  (forall t kw, exists x, modify_managed_prefix_list ec2 t kw = Resp x) ->
  owner = "" \/ owner = acct_owner ->
  m = 0 \/ zlen (py_set D) <= m ->
  delta (py_set D) have = (to_add, to_remove) ->
  to_add <> [] \/ to_remove <> [] ->
  let AB := _chunks MAX_BATCH (map (fun c => mkAdd c (entry_description desc)) to_add) in
  let RB := _chunks MAX_BATCH to_remove in
  (forall b, In b AB -> b <> [] /\ (length b <= MAX_BATCH)%nat) /\
  concat AB = map (fun c => mkAdd c (entry_description desc)) to_add /\
  (forall b, In b RB -> b <> [] /\ (length b <= MAX_BATCH)%nat) /\
  concat RB = to_remove /\
  (length to_add = 85%nat -> to_remove = [] -> map (@length _) AB = [80; 5]%nat /\ RB = []) /\
  exists kws vend,
    apply_delta_body acct ec2 id desc D name acct_owner v have m owner tr
    = (Ok (mkResult id v vend to_add to_remove true
             (SummaryChanged id (zlen to_add) (zlen to_remove) vend)),
       tr ++ map (CModify (region_name ec2)) kws) /\
    length kws = Nat.max (length AB) (length RB) /\
    (forall k kw, nth_error kws k = Some kw ->
       MPrefixListId kw = id /\ MAddEntries kw = nth_error AB k /\
       MRemoveEntries kw = nth_error RB k /\
       modify_managed_prefix_list ec2 (tr ++ map (CModify (region_name ec2)) (firstn k kws)) kw
       = Resp (match nth_error kws (S k) with Some kw' => MCurrentVersion kw' | None => vend end)) /\
    (forall kw, nth_error kws 0 = Some kw -> MCurrentVersion kw = v).
Proof.
  intros Hmod Hown Hcap Hdelta Hne AB RB.
  assert (HAB : forall b, In b AB -> b <> [] /\ (length b <= MAX_BATCH)%nat)
    by (apply chunks_bounded; unfold MAX_BATCH; lia).
  assert (HRB : forall b, In b RB -> b <> [] /\ (length b <= MAX_BATCH)%nat)
    by (apply chunks_bounded; unfold MAX_BATCH; lia).
  split; [exact HAB|]. split; [apply chunks_go_concat|].
  split; [exact HRB|]. split; [apply chunks_go_concat|]. split.
  { intros H85 ->. split; [|reflexivity]. apply chunks_85. rewrite length_map. exact H85. }
  destruct (batch_loop_calls acct ec2 id name AB RB Hmod
              (fun b Hb => proj1 (HAB b Hb)) (fun b Hb => proj1 (HRB b Hb))
              (Nat.max (length AB) (length RB)) 0 0 v tr)
    as (kws & vend & Hrun & Hlen & Hcalls & Hfirst).
  { rewrite !Nat.sub_0_r. reflexivity. }
  exists kws, vend. split; [|split; [exact Hlen|split]].
  - unfold apply_delta_body. rewrite (owned_not_foreign _ _ Hown), (capacity_ok _ _ Hcap).
    rewrite Hdelta. rewrite (match_both_nil _ _ _ _ Hne).
    unfold bind. fold AB RB. rewrite Hrun.
    rewrite (match_both_nil _ _ _ _ Hne). reflexivity.
  - intros k kw Hk. exact (Hcalls k kw Hk).
  - intros kw Hkw. destruct kws as [|kw0 kws]; [discriminate|]. simpl in Hkw.
    injection Hkw as <-. exact Hfirst.
Qed.

Lemma batches_chained_witness :
  map (@length _) (_chunks MAX_BATCH
    (map (fun c => mkAdd c (entry_description "d")) (Demo.cidrs 85))) = [80; 5]%nat /\
  exists kws vend,
    apply_delta_body "111" Demo.east "pl-4" "d" (Demo.cidrs 85) None "111" 3 [] 0 "111" []
    = (Ok (mkResult "pl-4" 3 vend (Demo.cidrs 85) [] true
             (SummaryChanged "pl-4" 85 0 vend)),
       map (CModify "us-east-1") kws) /\
    length kws = 2%nat.
Proof.
  assert (Hm : forall t kw, exists x, modify_managed_prefix_list Demo.east t kw = Resp x)
    by (intros t kw; eexists; reflexivity).
  assert (Ho : "111" = "" \/ "111" = "111") by (right; reflexivity).
  assert (Hc : 0 = 0 \/ zlen (py_set (Demo.cidrs 85)) <= 0) by (left; reflexivity).
  assert (Hd : delta (py_set (Demo.cidrs 85)) [] = (Demo.cidrs 85, []))
    by (vm_compute; reflexivity).
  assert (Hn : Demo.cidrs 85 <> [] \/ @nil string <> []) by (left; vm_compute; discriminate).
  destruct (batches_chained "111" Demo.east "pl-4" "d" (Demo.cidrs 85) None "111" 3 [] 0 "111" []
              (Demo.cidrs 85) [] Hm Ho Hc Hd Hn)
    as (_ & _ & _ & _ & H85 & kws & vend & Hrun & Hlen & _).
  split; [apply H85; [vm_compute; reflexivity | reflexivity]|].
  exists kws, vend. split; [exact Hrun|]. rewrite Hlen. vm_compute. reflexivity.
Defined.

(** C4: one batch call of [_modify]. If the provider accepts the call, its
    version is returned. If it rejects it with a message that is not a
    version conflict, that [ClientError] propagates. If the message is a
    version conflict (it contains ["CurrentVersion"], or ["version"] after
    lowercasing), the list is re-read exactly once with
    [_describe_pl_with_retries], which issues no modify call. If the re-read
    fails, its error propagates. Otherwise the same add and remove batches
    are sent once more, with the re-read [Version] (or the old hint if the
    record has none) as [CurrentVersion]. The result of that second call is
    final: a second rejection propagates as [ClientError], with no third
    modify call. *)
Theorem modify_conflict_retry acct ec2 id name ab rb vh tr :
  let kw := mkModify id vh (nonempty ab) (nonempty rb) in
  let r := region_name ec2 in
  match modify_managed_prefix_list ec2 tr kw with
  | Resp v => _modify acct ec2 id name ab rb vh tr = (Ok v, tr ++ [CModify r kw])
  | Fail msg =>
      if is_version_conflict msg then
        match _describe_pl_with_retries acct ec2 (Some id) name LOCATE_ATTEMPTS
                (tr ++ [CModify r kw]) with
        | (Err e, tr2) =>
            _modify acct ec2 id name ab rb vh tr = (Err e, tr2) /\
            exists ext, tr2 = tr ++ [CModify r kw] ++ ext /\ forallb not_modify ext = true
        | (Ok fresh, tr2) =>
            let kw' := mkModify id (z_or (Version fresh) vh) (nonempty ab) (nonempty rb) in
            (exists ext, tr2 = tr ++ [CModify r kw] ++ ext /\ forallb not_modify ext = true) /\
            _modify acct ec2 id name ab rb vh tr
            = (match modify_managed_prefix_list ec2 tr2 kw' with
               | Resp v => Ok v
               | Fail msg2 => Err (ClientError msg2)
               end, tr2 ++ [CModify r kw'])
        end
      else _modify acct ec2 id name ab rb vh tr = (Err (ClientError msg), tr ++ [CModify r kw])
  end.
Proof.
  cbv zeta. unfold _modify, try_client, ec2_call. cbv beta.
  destruct (modify_managed_prefix_list ec2 tr _) as [v|msg] eqn:E; [reflexivity|].
  destruct (is_version_conflict msg); [|reflexivity].
  unfold bind.
  destruct (_describe_pl_with_retries acct ec2 (Some id) name LOCATE_ATTEMPTS _)
    as [[fresh|e] tr2] eqn:D;
    destruct (safe_describe_pl_with_retries acct ec2 (Some id) name LOCATE_ATTEMPTS _ _ _ D)
      as [[ext [Hext Hnm]] _];
    rewrite <- app_assoc in Hext.
  - split; [exists ext; split; assumption|].
    destruct (modify_managed_prefix_list ec2 tr2 _); reflexivity.
  - split; [reflexivity|]. exists ext. split; assumption.
Qed.

(** C1 (counterexample): with both targets configured, a throttled read of
    the IPv4 list's entries makes the handler raise that [ClientError]; the
    IPv6 list [pl-6] is never touched and no summary is produced. *)
Lemma handler_v4_failure_aborts :
  handler Demo.throttled_globals Demo.both_targets ["1.0.0.0/8"] ["2001:db8::/32"] []
  = (Err (ClientError "An error occurred (RequestLimitExceeded)"),
     [CDescribeManaged "us-east-1" (Some ["pl-4"]) None; CGetEntries "us-east-1" "pl-4" None]).
Proof. vm_compute. reflexivity. Qed.

(** C1 (as the code behaves): the two targets are reconciled one after the
    other with no isolation. If the IPv4 target is configured and its
    [apply_delta] raises, the handler raises the same error with the same
    trace: the IPv6 target is not attempted and no summary is returned. If
    the IPv4 target succeeds and the configured IPv6 target raises, the
    handler raises that error and the IPv4 result is lost. *)
Theorem handler_no_isolation (g : globals) (cfg : config) (v4 v6 : list string) :
  let desc := strip_trunc (str_or (DESCRIPTION cfg) DESCR_DEFAULT) in
  let ad4 := apply_delta (ACCOUNT g) (make_ec2 g (str_or (PL_V4_REGION cfg) (DEFAULT_REGION g)))
               (str_or (PL_V4_ID cfg) "") desc v4 (PL_V4_NAME cfg) (ACCOUNT g) in
  let ad6 := apply_delta (ACCOUNT g) (make_ec2 g (str_or (PL_V6_REGION cfg) (DEFAULT_REGION g)))
               (str_or (PL_V6_ID cfg) "") desc v6 (PL_V6_NAME cfg) (ACCOUNT g) in
  (forall tr e tr1,
     ostr_truthy (PL_V4_ID cfg) || ostr_truthy (PL_V4_NAME cfg) = true ->
     ad4 tr = (Err e, tr1) ->
     handler g cfg v4 v6 tr = (Err e, tr1)) /\
  (forall tr res4 tr1 e tr2,
     (if ostr_truthy (PL_V4_ID cfg) || ostr_truthy (PL_V4_NAME cfg)
      then bind ad4 (fun r => ret [r]) else ret []) tr = (Ok res4, tr1) ->
     ostr_truthy (PL_V6_ID cfg) || ostr_truthy (PL_V6_NAME cfg) = true ->
     ad6 tr1 = (Err e, tr2) ->
     handler g cfg v4 v6 tr = (Err e, tr2)).
Proof.
  intros desc ad4 ad6. split.
  - intros tr e tr1 Huse H4. unfold handler. cbv zeta. rewrite Huse.
    unfold bind at 1. unfold bind at 1. fold desc. fold ad4. rewrite H4. reflexivity.
  - intros tr res4 tr1 e tr2 H4 Huse H6. unfold handler. cbv zeta.
    unfold bind at 1. fold desc. fold ad4 ad6. rewrite H4, Huse.
    unfold bind at 1. unfold bind at 1. rewrite H6. reflexivity.
Qed.

Lemma handler_no_isolation_witness :
  handler Demo.throttled_globals Demo.both_targets ["1.0.0.0/8"] ["2001:db8::/32"] []
  = (Err (ClientError "An error occurred (RequestLimitExceeded)"),
     [CDescribeManaged "us-east-1" (Some ["pl-4"]) None; CGetEntries "us-east-1" "pl-4" None]).
Proof.
  apply (proj1 (handler_no_isolation Demo.throttled_globals Demo.both_targets
                  ["1.0.0.0/8"] ["2001:db8::/32"])).
  - reflexivity.
  - vm_compute. reflexivity.
Defined.

(** * Further properties of the lambda *)

(** ** [env_bool] *)

Lemma py_lstrip_spaces (ws v : pystr) :
  forallb py_isspace ws = true -> py_lstrip (ws ++ v) = py_lstrip v.
Proof.
  induction ws as [|c ws IH]; simpl; [reflexivity|].
  intros H. apply andb_true_iff in H as [Hc Hws]. rewrite Hc. apply IH, Hws.
Qed.

Lemma py_lstrip_all_spaces (ws : pystr) : forallb py_isspace ws = true -> py_lstrip ws = [].
Proof. intros H. rewrite <- (app_nil_r ws), py_lstrip_spaces by exact H. reflexivity. Qed.

Lemma py_lstrip_app (v w : pystr) :
  py_lstrip (v ++ w) = if forallb py_isspace v then py_lstrip w else py_lstrip v ++ w.
Proof.
  induction v as [|c v IH]; simpl; [reflexivity|].
  destruct (py_isspace c); simpl; [exact IH|reflexivity].
Qed.

Lemma forallb_rev {A} (f : A -> bool) (l : list A) : forallb f (rev l) = forallb f l.
Proof.
  induction l as [|x l IH]; simpl; [reflexivity|].
  rewrite forallb_app, IH. simpl. rewrite andb_true_r. apply andb_comm.
Qed.

Lemma py_strip_pad (ws1 v ws2 : pystr) :
  forallb py_isspace ws1 = true -> forallb py_isspace ws2 = true ->
  py_strip (ws1 ++ v ++ ws2) = py_strip v.
Proof.
  intros H1 H2. unfold py_strip. rewrite py_lstrip_spaces by exact H1.
  rewrite py_lstrip_app. destruct (forallb py_isspace v) eqn:Hv.
  - rewrite (py_lstrip_all_spaces ws2 H2), (py_lstrip_all_spaces v Hv). reflexivity.
  - rewrite rev_app_distr, py_lstrip_spaces by (rewrite forallb_rev; exact H2). reflexivity.
Qed.

(** Rewrite every comparison of the goal that [lia] settles. *)
Ltac zdecide :=
  repeat match goal with
  | |- context [?a <=? ?b] =>
      first [ replace (a <=? b) with true by (symmetry; apply Z.leb_le; lia)
            | replace (a <=? b) with false by (symmetry; apply Z.leb_gt; lia) ]
  | |- context [?a =? ?b] =>
      first [ replace (a =? b) with true by (symmetry; apply Z.eqb_eq; lia)
            | replace (a =? b) with false by (symmetry; apply Z.eqb_neq; lia) ]
  end.

Lemma py_isspace_mid (c : Z) : 33 <= c <= 132 -> py_isspace c = false.
Proof. intros H. unfold py_isspace. zdecide. reflexivity. Qed.

Lemma py_isspace_upper (c : Z) : py_isspace (ascii_upper_cp c) = py_isspace c.
Proof.
  unfold ascii_upper_cp. destruct (Z.leb_spec 97 c), (Z.leb_spec c 122); simpl; try reflexivity.
  rewrite !py_isspace_mid by lia. reflexivity.
Qed.

Lemma lower_upper (c : Z) : ascii_lower_cp (ascii_upper_cp c) = ascii_lower_cp c.
Proof.
  unfold ascii_lower_cp, ascii_upper_cp.
  destruct (Z.leb_spec 97 c), (Z.leb_spec c 122); simpl; try reflexivity.
  zdecide. simpl. lia.
Qed.

Lemma py_lstrip_map (f : Z -> Z) (v : pystr) :
  (forall c, py_isspace (f c) = py_isspace c) -> py_lstrip (map f v) = map f (py_lstrip v).
Proof.
  intros Hf. induction v as [|c v IH]; simpl; [reflexivity|].
  rewrite Hf. destruct (py_isspace c); [exact IH|reflexivity].
Qed.

Lemma py_strip_map (f : Z -> Z) (v : pystr) :
  (forall c, py_isspace (f c) = py_isspace c) -> py_strip (map f v) = map f (py_strip v).
Proof.
  intros Hf. unfold py_strip.
  rewrite py_lstrip_map, <- map_rev, py_lstrip_map, <- map_rev by exact Hf. reflexivity.
Qed.

(** [env_bool] returns the default exactly when the variable is unset;
    when it is set, the default plays no part, and surrounding whitespace
    and the case of ASCII letters do not change the answer (["  TRUE\n"]
    reads as ["true"]). *)
Theorem env_bool_normalises :
  (forall d, env_bool None d = d) /\
  (forall v d1 d2, env_bool (Some v) d1 = env_bool (Some v) d2) /\
  (forall ws1 v ws2 d, forallb py_isspace ws1 = true -> forallb py_isspace ws2 = true ->
     env_bool (Some (ws1 ++ v ++ ws2)) d = env_bool (Some v) d) /\
  (forall v d, env_bool (Some (map ascii_upper_cp v)) d = env_bool (Some v) d).
Proof.
  split; [reflexivity|]. split; [reflexivity|]. split.
  - intros ws1 v ws2 d H1 H2. simpl. rewrite py_strip_pad by assumption. reflexivity.
  - intros v d. simpl. rewrite py_strip_map by exact py_isspace_upper.
    rewrite map_map. rewrite (map_ext _ _ lower_upper). reflexivity.
Qed.

Lemma env_bool_normalises_witness :
  env_bool (Some ([32; 32] ++ map ascii_upper_cp (txt "true") ++ [10])) false = true.
Proof.
  destruct env_bool_normalises as (_ & _ & Hpad & Hcase).
  rewrite Hpad by reflexivity. rewrite Hcase. reflexivity.
Defined.

(** ** [summarize_items] *)

Lemma decimal_value_app (ds acc : pystr) :
  decimal_value (ds ++ acc)
  = fold_left (fun a d => a * 10 + (d - 48)) acc (decimal_value ds).
Proof. unfold decimal_value. apply fold_left_app. Qed.

Lemma digits_go_spec (f : nat) : forall n acc,
  0 <= n < 10 ^ Z.of_nat (S f) ->
  exists ds, digits_go (S f) n acc = ds ++ acc /\ decimal_value ds = n /\
             forallb is_digit ds = true.
Proof.
  induction f as [|f IH]; intros n acc Hn; simpl digits_go.
  - change (Z.of_nat 1) with 1 in Hn. rewrite Z.pow_1_r in Hn.
    replace (n <? 10) with true by (symmetry; apply Z.ltb_lt; lia).
    exists [48 + n mod 10]. split; [reflexivity|].
    rewrite Z.mod_small by lia. unfold decimal_value, is_digit, in_range. cbn [fold_left forallb].
    split; [lia|]. zdecide. reflexivity.
  - destruct (Z.ltb_spec n 10) as [Hlt|Hge].
    + exists [48 + n mod 10]. split; [reflexivity|].
      rewrite Z.mod_small by lia. unfold decimal_value, is_digit, in_range. cbn [fold_left forallb].
      split; [lia|]. zdecide. reflexivity.
    + destruct (IH (n / 10) ((48 + n mod 10) :: acc)) as (ds & Hds & Hv & Hd).
      { split; [apply Z.div_pos; lia|]. apply Z.div_lt_upper_bound; [lia|].
        rewrite Nat2Z.inj_succ, Z.pow_succ_r in Hn by lia. lia. }
      exists (ds ++ [48 + n mod 10]). rewrite <- app_assoc. split; [exact Hds|]. split.
      * rewrite decimal_value_app, Hv. cbn [fold_left].
        pose proof (Z.div_mod n 10). lia.
      * rewrite forallb_app, Hd. unfold is_digit, in_range. cbn [forallb andb].
        pose proof (Z.mod_pos_bound n 10). zdecide. reflexivity.
Qed.

Lemma digits_spec (n : Z) : 0 <= n ->
  decimal_value (digits n) = n /\ forallb is_digit (digits n) = true.
Proof.
  intros Hn. unfold digits.
  destruct (digits_go_spec (Z.to_nat (Z.log2 n)) n []) as (ds & Hds & Hv & Hd).
  - split; [exact Hn|].
    rewrite Nat2Z.inj_succ, Z2Nat.id by apply Z.log2_nonneg.
    apply Z.lt_le_trans with (2 ^ Z.succ (Z.log2 n)).
    + destruct (Z.eq_dec n 0) as [->|Hnz]; [reflexivity|]. apply Z.log2_spec. lia.
    + apply Z.pow_le_mono_l. pose proof (Z.log2_nonneg n). lia.
  - rewrite Hds, app_nil_r. split; assumption.
Qed.

(** For a list longer than a non-negative [limit], [summarize_items]
    lists the first [limit] items joined by [", "] and then the marker
    [", … (+k más)"], where [k], read as a decimal numeral, is the number
    of items left out. *)
Theorem summarize_items_overflow (items : list pystr) (limit : Z) :
  0 <= limit -> limit < zlen items ->
  exists k,
    summarize_items items limit
    = join (txt ", ") (firstn (Z.to_nat limit) items) ++ txt ", " ++ [8230] ++ txt " (+"
        ++ k ++ txt " m" ++ [225] ++ txt "s)" /\
    forallb is_digit k = true /\ decimal_value k = zlen items - limit.
Proof.
  intros H0 Hlt. unfold zlen in Hlt.
  destruct items as [|x items']; [simpl in Hlt; lia|].
  exists (py_str_int (Z.of_nat (length (x :: items')) - limit)).
  unfold summarize_items. cbv iota beta.
  replace (Z.of_nat (length (x :: items')) <=? limit) with false
    by (symmetry; apply Z.leb_gt; lia).
  unfold py_take. replace (0 <=? limit) with true by (symmetry; apply Z.leb_le; lia).
  unfold py_str_int. replace (Z.of_nat (length (x :: items')) - limit <? 0) with false
    by (symmetry; apply Z.ltb_ge; lia).
  destruct (digits_spec (Z.of_nat (length (x :: items')) - limit)) as [Hv Hd]; [lia|].
  split; [reflexivity|]. split; [exact Hd|]. exact Hv.
Qed.

Lemma summarize_items_overflow_witness :
  exists k,
    summarize_items [txt "a"; txt "b"; txt "c"] 1
    = txt "a" ++ txt ", " ++ [8230] ++ txt " (+" ++ k ++ txt " m" ++ [225] ++ txt "s)" /\
    decimal_value k = 2.
Proof.
  destruct (summarize_items_overflow [txt "a"; txt "b"; txt "c"] 1) as (k & Hk & _ & Hv).
  - lia.
  - reflexivity.
  - exists k. split; [exact Hk|exact Hv].
Defined.

(** ** [fetch_plain_lines] *)

Lemma splitlines_go_nl_n (n : nat) : forall (a : pybytes), (length a <= n)%nat ->
  forall cur b, splitlines_go cur (a ++ 10 :: b) = splitlines_go cur (a ++ [10]) ++ splitlines_go [] b.
Proof.
  induction n as [|n IH]; intros a Hlen cur b.
  - destruct a; [reflexivity|simpl in Hlen; lia].
  - destruct a as [|c a']; [reflexivity|]. simpl in Hlen. cbn [app splitlines_go].
    destruct (c =? 10).
    + rewrite (IH a') by lia. reflexivity.
    + destruct (c =? 13).
      * destruct a' as [|d a'']; [reflexivity|]. cbn [app]. simpl in Hlen.
        destruct (d =? 10).
        -- rewrite (IH a'') by lia. reflexivity.
        -- pose proof (IH (d :: a'') ltac:(simpl; lia) [] b) as E. cbn [app] in E.
           rewrite E. reflexivity.
      * apply IH. lia.
Qed.

Lemma splitlines_go_nl (a b cur : pybytes) :
  splitlines_go cur (a ++ 10 :: b) = splitlines_go cur (a ++ [10]) ++ splitlines_go [] b.
Proof. apply (splitlines_go_nl_n (length a)). lia. Qed.

Lemma splitlines_go_line (l : pybytes) : no_line_break l = true ->
  forall cur, splitlines_go cur (l ++ [10]) = [rev cur ++ l].
Proof.
  induction l as [|c l IH]; intros Hl cur.
  - simpl. rewrite app_nil_r. reflexivity.
  - unfold no_line_break in Hl. simpl in Hl. apply andb_true_iff in Hl as [Hc Hl].
    apply negb_true_iff, orb_false_iff in Hc as [H10 H13].
    cbn [app splitlines_go]. rewrite H10, H13. rewrite IH by exact Hl.
    simpl. rewrite <- app_assoc. reflexivity.
Qed.

Lemma splitlines_mid (a l b : pybytes) : no_line_break l = true ->
  splitlines (a ++ [10] ++ l ++ [10] ++ b)
  = splitlines (a ++ [10]) ++ [l] ++ splitlines b.
Proof.
  intros Hl. unfold splitlines. simpl (_ ++ _ :: _).
  rewrite (splitlines_go_nl a (l ++ 10 :: b)), (splitlines_go_nl l b),
    (splitlines_go_line l) by exact Hl. reflexivity.
Qed.

Lemma plain_lines_loop_app (x y : list pybytes) :
  plain_lines_loop (x ++ y)
  = match plain_lines_loop x with
    | Some o => option_map (app o) (plain_lines_loop y)
    | None => None
    end.
Proof.
  induction x as [|l x IH]; simpl.
  - destruct (plain_lines_loop y); reflexivity.
  - destruct (skip_line l); [exact IH|].
    destruct (decode_utf8 l); [|reflexivity].
    rewrite IH. destruct (plain_lines_loop x), (plain_lines_loop y); reflexivity.
Qed.

Lemma py_isspace_low (c : Z) : c < 9 -> py_isspace c = false.
Proof. intros H. unfold py_isspace. zdecide. reflexivity. Qed.

Lemma decode_ascii (l : pybytes) : forallb (in_range 0 127) l = true -> decode_utf8 l = Some l.
Proof.
  induction l as [|c l IH]; intros H; [reflexivity|].
  simpl in H. apply andb_true_iff in H as [Hc Hl]. simpl. rewrite Hc, IH by exact Hl. reflexivity.
Qed.

Lemma splitlines_go_brk_base (cur : pybytes) (c : Z) (b : pybytes) :
  (c = 10 \/ (c = 13 /\ forall r, b <> 10 :: r)) ->
  splitlines_go cur (c :: b) = splitlines_go cur [c] ++ splitlines_go [] b.
Proof.
  intros [->|[-> Hb]]; [reflexivity|].
  destruct b as [|d r]; [reflexivity|].
  assert (Hd : (d =? 10) = false) by (apply Z.eqb_neq; intros ->; apply (Hb r); reflexivity).
  cbn [splitlines_go]. simpl (13 =? 10). simpl (13 =? 13). rewrite Hd. reflexivity.
Qed.

Lemma splitlines_go_brk_n (n : nat) : forall (a : pybytes), (length a <= n)%nat ->
  forall cur c b, (c = 10 \/ (c = 13 /\ forall r, b <> 10 :: r)) ->
  splitlines_go cur (a ++ c :: b) = splitlines_go cur (a ++ [c]) ++ splitlines_go [] b.
Proof.
  induction n as [|n IH]; intros a Hlen cur c b Hc.
  - destruct a; [|simpl in Hlen; lia]. apply splitlines_go_brk_base, Hc.
  - destruct a as [|x a']; [apply splitlines_go_brk_base, Hc|]. simpl in Hlen.
    cbn [app splitlines_go].
    destruct (x =? 10); [rewrite (IH a') by (assumption || lia); reflexivity|].
    destruct (x =? 13); [|apply IH; [lia|exact Hc]].
    destruct a' as [|d a''].
    + cbn [app]. destruct Hc as [->|[-> Hb]]; [reflexivity|].
      simpl (13 =? 10). cbv iota.
      pose proof (IH [] ltac:(simpl; lia) [] 13 b (or_intror (conj eq_refl Hb))) as E.
      cbn [app] in E. rewrite E. reflexivity.
    + cbn [app]. simpl in Hlen. destruct (d =? 10).
      * rewrite (IH a'') by (assumption || lia). reflexivity.
      * pose proof (IH (d :: a'') ltac:(simpl; lia) [] c b Hc) as E. cbn [app] in E.
        rewrite E. reflexivity.
Qed.

Lemma splitlines_go_brk (a : pybytes) (cur : pybytes) (c : Z) (b : pybytes) :
  (c = 10 \/ (c = 13 /\ forall r, b <> 10 :: r)) ->
  splitlines_go cur (a ++ c :: b) = splitlines_go cur (a ++ [c]) ++ splitlines_go [] b.
Proof. apply (splitlines_go_brk_n (length a)). lia. Qed.

Lemma splitlines_go_run (l : pybytes) : no_line_break l = true ->
  forall cur b, splitlines_go cur (l ++ b) = splitlines_go (rev l ++ cur) b.
Proof.
  induction l as [|c l IH]; intros Hl cur b; [reflexivity|].
  unfold no_line_break in Hl. simpl in Hl. apply andb_true_iff in Hl as [Hc Hl].
  apply negb_true_iff, orb_false_iff in Hc as [H10 H13].
  cbn [app splitlines_go]. rewrite H10, H13, IH by exact Hl.
  simpl. rewrite <- app_assoc. reflexivity.
Qed.

Lemma splitlines_go_end (cur b : pybytes) : cur <> [] ->
  (b = [] \/ exists b0, b = 10 :: b0 \/ b = 13 :: b0) ->
  exists y, splitlines_go cur b = rev cur :: y.
Proof.
  intros Hc [->|(b0 & [->| ->])].
  - destruct cur; [contradiction|]. exists []. reflexivity.
  - eexists. reflexivity.
  - cbn [splitlines_go]. simpl (13 =? 10). simpl (13 =? 13).
    destruct b0 as [|d r]; [exists []; reflexivity|].
    destruct (d =? 10); eexists; reflexivity.
Qed.

(** A non-empty run of bytes without line break, at the start of the body
    or after a line break, and at the end of the body or before a line
    break, is one line of [splitlines]. *)
Lemma splitlines_line (a l b : pybytes) : l <> [] -> no_line_break l = true ->
  (a = [] \/ exists a0, a = a0 ++ [10] \/ a = a0 ++ [13]) ->
  (b = [] \/ exists b0, b = 10 :: b0 \/ b = 13 :: b0) ->
  exists x y, splitlines (a ++ l ++ b) = x ++ l :: y.
Proof.
  intros Hne Hl Ha Hb.
  assert (Hrun : exists y, splitlines_go [] (l ++ b) = l :: y).
  { rewrite splitlines_go_run, app_nil_r by exact Hl.
    destruct (splitlines_go_end (rev l) b) as [y Hy].
    - intros H. apply Hne. rewrite <- (rev_involutive l), H. reflexivity.
    - exact Hb.
    - rewrite rev_involutive in Hy. exists y. exact Hy. }
  destruct Hrun as [y Hy]. unfold splitlines.
  destruct Ha as [->|(a0 & [-> | ->])].
  - exists [], y. exact Hy.
  - rewrite <- app_assoc. simpl ([10] ++ _).
    rewrite (splitlines_go_brk a0 [] 10 (l ++ b) (or_introl eq_refl)), Hy.
    exists (splitlines_go [] (a0 ++ [10])), y. reflexivity.
  - rewrite <- app_assoc. simpl ([13] ++ _).
    assert (Hnl : forall r, l ++ b <> 10 :: r).
    { intros r H. destruct l as [|d l']; [contradiction|]. injection H as Hd _. subst d.
      discriminate Hl. }
    rewrite (splitlines_go_brk a0 [] 13 (l ++ b) (or_intror (conj eq_refl Hnl))), Hy.
    exists (splitlines_go [] (a0 ++ [13])), y. reflexivity.
Qed.

Lemma splitlines_go_no_break_n (n : nat) : forall (b : pybytes), (length b <= n)%nat ->
  forall cur l, no_line_break cur = true -> In l (splitlines_go cur b) -> no_line_break l = true.
Proof.
  assert (Hrev : forall cur, no_line_break cur = true -> no_line_break (rev cur) = true).
  { intros cur H. unfold no_line_break. rewrite forallb_rev. exact H. }
  induction n as [|n IH]; intros b Hlen cur l Hc Hin.
  - destruct b; [|simpl in Hlen; lia].
    destruct cur; [contradiction|]. destruct Hin as [<-|[]]. apply Hrev, Hc.
  - destruct b as [|x r].
    + destruct cur; [contradiction|]. destruct Hin as [<-|[]]. apply Hrev, Hc.
    + simpl in Hlen. cbn [splitlines_go] in Hin.
      destruct (x =? 10) eqn:H10.
      { destruct Hin as [<-|Hin]; [apply Hrev, Hc|]. apply (IH r ltac:(lia) [] l eq_refl Hin). }
      destruct (x =? 13) eqn:H13.
      { destruct r as [|d r'].
        - destruct Hin as [<-|[]]. apply Hrev, Hc.
        - simpl in Hlen. destruct (d =? 10); destruct Hin as [<-|Hin]; try (apply Hrev, Hc).
          + apply (IH r' ltac:(lia) [] l eq_refl Hin).
          + apply (IH (d :: r') ltac:(simpl; lia) [] l eq_refl Hin). }
      apply (IH r ltac:(lia) (x :: cur) l); [|exact Hin].
      unfold no_line_break. simpl. rewrite H10, H13. exact Hc.
Qed.

Lemma splitlines_no_break (raw l : pybytes) : In l (splitlines raw) -> no_line_break l = true.
Proof. intros Hin. apply (splitlines_go_no_break_n (length raw) raw (le_n _) [] l eq_refl Hin). Qed.

(** What [plain_lines_loop] returns, line by line: the lines it does not
    skip, each decoded and stripped. *)
Lemma plain_lines_loop_spec (lines : list pybytes) (out : list pystr) :
  plain_lines_loop lines = Some out <->
  Forall2 (fun l e => exists s, decode_utf8 l = Some s /\ e = py_strip s)
    (filter (fun l => negb (skip_line l)) lines) out.
Proof.
  revert out. induction lines as [|l rest IH]; intros out.
  - simpl. split; [intros H; injection H as <-; constructor|].
    intros H. inversion H. reflexivity.
  - simpl. destruct (skip_line l) eqn:Hs; simpl; [apply IH|].
    destruct (decode_utf8 l) as [s|] eqn:Hd.
    + split.
      * intros H. destruct (plain_lines_loop rest) as [o|] eqn:Hr; simpl in H; [|discriminate].
        injection H as <-. constructor; [exists s; split; [exact Hd|reflexivity]|]. apply IH. reflexivity.
      * intros H. inversion H as [|x e xs es (s' & Hs' & He) Hf]; subst.
        rewrite Hd in Hs'. injection Hs' as <-. apply IH in Hf. rewrite Hf. reflexivity.
    + split; [discriminate|]. intros H. inversion H as [|x e xs es (s' & Hs' & _) _]; subst.
      congruence.
Qed.

(** [plain_lines_loop] fails exactly when a line it keeps does not decode. *)
Lemma plain_lines_loop_none (lines : list pybytes) :
  plain_lines_loop lines = None <->
  exists l, In l lines /\ skip_line l = false /\ decode_utf8 l = None.
Proof.
  induction lines as [|l rest IH]; simpl.
  - split; [discriminate|]. intros (l & [] & _).
  - destruct (skip_line l) eqn:Hs.
    + rewrite IH. split.
      * intros (l' & Hin & H). exists l'. split; [right; exact Hin|exact H].
      * intros (l' & [<-|Hin] & H1 & H2); [congruence|]. exists l'. auto.
    + destruct (decode_utf8 l) as [s|] eqn:Hd.
      * assert (E : option_map (cons (py_strip s)) (plain_lines_loop rest) = None
                    <-> plain_lines_loop rest = None)
          by (destruct (plain_lines_loop rest); simpl; split; congruence).
        rewrite E, IH. split.
        -- intros (l' & Hin & H). exists l'. split; [right; exact Hin|exact H].
        -- intros (l' & [<-|Hin] & H1 & H2); [congruence|]. exists l'. auto.
      * split; [|reflexivity]. intros _. exists l. auto.
Qed.

Lemma plain_lines_loop_filter (lines : list pybytes) :
  plain_lines_loop lines = plain_lines_loop (filter (fun l => negb (skip_line l)) lines).
Proof.
  induction lines as [|l rest IH]; [reflexivity|]. simpl.
  destruct (skip_line l) eqn:Hs; simpl; [exact IH|]. rewrite Hs, IH. reflexivity.
Qed.

Lemma fetch_plain_lines_ok (w : web) (url : string) (tr : list request) (raw : pybytes) :
  http_get_oracle w tr (url, ACCEPT_PLAIN) = GetOk raw ->
  fetch_plain_lines w url tr
  = match plain_lines_loop (splitlines raw) with
    | Some out => (WOk out, tr ++ [(url, ACCEPT_PLAIN)])
    | None => (WErr UnicodeDecodeError, tr ++ [(url, ACCEPT_PLAIN)])
    end.
Proof.
  intros Hg. unfold fetch_plain_lines, wbind, http_get. rewrite Hg.
  destruct (plain_lines_loop (splitlines raw)); reflexivity.
Qed.

Lemma ascii_spaces_strip (l : pybytes) : l <> [] ->
  forallb (fun c => py_isspace c && (c <? 128)) l = true ->
  skip_line l = false /\ decode_utf8 l = Some l /\ py_strip l = [].
Proof.
  intros Hne Hws.
  assert (Hsp : forallb py_isspace l = true).
  { rewrite forallb_forall in *. intros c Hc. specialize (Hws c Hc).
    apply andb_true_iff in Hws. tauto. }
  assert (Hasc : forallb (in_range 0 127) l = true).
  { rewrite forallb_forall in *. intros c Hc. specialize (Hws c Hc).
    apply andb_true_iff in Hws as [Hs Hlt]. apply Z.ltb_lt in Hlt.
    destruct (Z.ltb_spec c 9) as [Hlow|]; [rewrite py_isspace_low in Hs by exact Hlow; discriminate|].
    unfold in_range. zdecide. reflexivity. }
  split; [|split].
  - destruct l as [|c l']; [contradiction|]. simpl in *.
    apply andb_true_iff in Hsp as [Hc _].
    destruct (Z.eqb_spec c 35) as [->|]; [discriminate|reflexivity].
  - apply decode_ascii, Hasc.
  - unfold py_strip. rewrite (py_lstrip_all_spaces l Hsp). reflexivity.
Qed.

(** The entries [fetch_plain_lines] returns after a successful GET: one per
    line of the body that is neither empty nor starts with ["#"], in order,
    the line decoded as UTF-8 and stripped.  Lines are those of
    [bytes.splitlines]: every maximal run of bytes without [\n] or [\r]
    (the first and the last line of the body included, whether or not the
    body ends in a line break, and whether lines end in [\n], [\r\n] or
    [\r]) is one of them and none contains a line break; a line made only of
    ASCII whitespace gives the empty string, which the entry list keeps. *)
Theorem fetch_line_kept (w : web) (url : string) (tr : list request) (raw : pybytes) :
  http_get_oracle w tr (url, ACCEPT_PLAIN) = GetOk raw ->
  (forall out,
     fetch_plain_lines w url tr = (WOk out, tr ++ [(url, ACCEPT_PLAIN)]) <->
     Forall2 (fun l e => exists s, decode_utf8 l = Some s /\ e = py_strip s)
       (filter (fun l => negb (skip_line l)) (splitlines raw)) out) /\
  (forall out a l b,
     raw = a ++ l ++ b -> l <> [] -> no_line_break l = true ->
     (a = [] \/ exists a0, a = a0 ++ [10] \/ a = a0 ++ [13]) ->
     (b = [] \/ exists b0, b = 10 :: b0 \/ b = 13 :: b0) ->
     fetch_plain_lines w url tr = (WOk out, tr ++ [(url, ACCEPT_PLAIN)]) ->
     skip_line l = false ->
     exists s, decode_utf8 l = Some s /\ In (py_strip s) out) /\
  (forall l, In l (splitlines raw) -> no_line_break l = true) /\
  (forall l, l <> [] -> forallb (fun c => py_isspace c && (c <? 128)) l = true ->
     skip_line l = false /\ decode_utf8 l = Some l /\ py_strip l = []).
Proof.
  intros Hg. pose proof (fetch_plain_lines_ok w url tr raw Hg) as Hf.
  assert (P1 : forall out,
     fetch_plain_lines w url tr = (WOk out, tr ++ [(url, ACCEPT_PLAIN)]) <->
     Forall2 (fun l e => exists s, decode_utf8 l = Some s /\ e = py_strip s)
       (filter (fun l => negb (skip_line l)) (splitlines raw)) out).
  { intros out. rewrite Hf, <- plain_lines_loop_spec.
    destruct (plain_lines_loop (splitlines raw)); split; intros H; inversion H; reflexivity. }
  split; [exact P1|]. split; [|split; [exact (splitlines_no_break raw)|exact ascii_spaces_strip]].
  intros out a l b Hraw Hne Hl Ha Hb Hok Hs.
  apply P1 in Hok.
  destruct (splitlines_line a l b Hne Hl Ha Hb) as (x & y & Hxy). rewrite <- Hraw in Hxy.
  rewrite Hxy, filter_app in Hok. cbn [filter] in Hok. rewrite Hs in Hok. simpl negb in Hok.
  apply Forall2_app_inv_l in Hok as (o1 & o2 & _ & H2 & ->).
  inversion H2 as [|x' e xs es (s & Hd & ->) _]; subst.
  exists s. split; [exact Hd|]. apply in_or_app. right. left. reflexivity.
Qed.

Lemma fetch_line_kept_witness :
  let body := txt "1.0.0.0/8" ++ [13; 10] ++ [32; 9] ++ [13] ++ txt "# c" ++ [10]
              ++ txt " 2.0.0.0/8" in
  let w := DemoWeb.api_ok (GetOk body) (GetOk DemoWeb.v6_body) in
  fetch_plain_lines w CF_V4_URL []
  = (WOk [txt "1.0.0.0/8"; []; txt "2.0.0.0/8"], [] ++ [(CF_V4_URL, ACCEPT_PLAIN)]) /\
  (exists s, decode_utf8 (txt "1.0.0.0/8") = Some s /\
             In (py_strip s) [txt "1.0.0.0/8"; []; txt "2.0.0.0/8"]) /\
  (exists s, decode_utf8 (txt " 2.0.0.0/8") = Some s /\
             In (py_strip s) [txt "1.0.0.0/8"; []; txt "2.0.0.0/8"]).
Proof.
  intros body w.
  destruct (fetch_line_kept w CF_V4_URL [] body eq_refl) as (H1 & H2 & _ & _).
  assert (Hok : fetch_plain_lines w CF_V4_URL []
                = (WOk [txt "1.0.0.0/8"; []; txt "2.0.0.0/8"], [] ++ [(CF_V4_URL, ACCEPT_PLAIN)])).
  { apply H1, plain_lines_loop_spec. vm_compute. reflexivity. }
  split; [exact Hok|split].
  - apply (H2 _ [] (txt "1.0.0.0/8") ([13; 10] ++ [32; 9] ++ [13] ++ txt "# c" ++ [10]
                                       ++ txt " 2.0.0.0/8")).
    + reflexivity.
    + discriminate.
    + reflexivity.
    + left. reflexivity.
    + right. eexists. right. reflexivity.
    + exact Hok.
    + reflexivity.
  - apply (H2 _ (txt "1.0.0.0/8" ++ [13; 10] ++ [32; 9] ++ [13] ++ txt "# c" ++ [10])
             (txt " 2.0.0.0/8") []).
    + vm_compute. reflexivity.
    + discriminate.
    + reflexivity.
    + right. exists (txt "1.0.0.0/8" ++ [13; 10] ++ [32; 9] ++ [13] ++ txt "# c"). left.
      vm_compute. reflexivity.
    + left. reflexivity.
    + exact Hok.
    + reflexivity.
Defined.

Lemma splitlines_go_crlf (raw : pybytes) : ~ In 13 raw ->
  forall cur, splitlines_go cur (to_crlf raw) = splitlines_go cur raw.
Proof.
  induction raw as [|c r IH]; intros Hn cur; [reflexivity|].
  assert (Hr : ~ In 13 r) by (intros H; apply Hn; right; exact H).
  assert (Hc : c <> 13) by (intros ->; apply Hn; left; reflexivity).
  unfold to_crlf in *. cbn [flat_map].
  destruct (Z.eqb_spec c 10) as [->|Hc10].
  - cbn [app splitlines_go Z.eqb Pos.eqb]. simpl (13 =? 10). simpl (13 =? 13).
    simpl (10 =? 10). rewrite IH by exact Hr. reflexivity.
  - cbn [app splitlines_go]. apply Z.eqb_neq in Hc10. apply Z.eqb_neq in Hc.
    rewrite Hc10, Hc. apply IH. exact Hr.
Qed.

Lemma splitlines_go_cr (raw : pybytes) : ~ In 13 raw ->
  forall cur, splitlines_go cur (to_cr raw) = splitlines_go cur raw.
Proof.
  induction raw as [|c r IH]; intros Hn cur; [reflexivity|].
  assert (Hr : ~ In 13 r) by (intros H; apply Hn; right; exact H).
  assert (Hc : c <> 13) by (intros ->; apply Hn; left; reflexivity).
  unfold to_cr in *. cbn [map].
  destruct (Z.eqb_spec c 10) as [->|Hc10].
  - simpl (13 =? 10). simpl (13 =? 13). cbn [splitlines_go]. simpl (13 =? 10). simpl (13 =? 13).
    simpl (10 =? 10).
    destruct r as [|c' r']; [reflexivity|].
    cbn [map].
    assert (Hd : ((if c' =? 10 then 13 else c') =? 10) = false).
    { destruct (Z.eqb_spec c' 10); [reflexivity|]. apply Z.eqb_neq. exact n. }
    rewrite Hd. f_equal. specialize (IH Hr []). exact IH.
  - apply Z.eqb_neq in Hc10. apply Z.eqb_neq in Hc.
    cbn [splitlines_go]. rewrite Hc10, Hc. apply IH. exact Hr.
Qed.

(** Feed bodies without carriage returns give the same entries whether their
    lines end in [\n], [\r\n] or [\r]: [fetch_plain_lines] sees the same
    lines in the three cases. *)
Theorem plain_lines_line_endings (raw : pybytes) : ~ In 13 raw ->
  plain_lines_loop (splitlines (to_crlf raw)) = plain_lines_loop (splitlines raw) /\
  plain_lines_loop (splitlines (to_cr raw)) = plain_lines_loop (splitlines raw).
Proof.
  intros Hn. unfold splitlines. rewrite splitlines_go_crlf, splitlines_go_cr by exact Hn.
  split; reflexivity.
Qed.

Lemma plain_lines_line_endings_witness :
  plain_lines_loop (splitlines (to_cr (txt "1.0.0.0/8" ++ [10] ++ txt "# c" ++ [10] ++ txt " 2.0.0.0/8 " ++ [10])))
  = Some [txt "1.0.0.0/8"; txt "2.0.0.0/8"].
Proof.
  rewrite (proj2 (plain_lines_line_endings
                    (txt "1.0.0.0/8" ++ [10] ++ txt "# c" ++ [10] ++ txt " 2.0.0.0/8 " ++ [10])
                    ltac:(intros H; vm_compute in H; repeat (destruct H as [H|H]; [discriminate|]); exact H))).
  vm_compute. reflexivity.
Defined.

(** After a successful GET, [fetch_plain_lines] raises [UnicodeDecodeError]
    exactly when some line of the body (as [bytes.splitlines] splits it)
    that is neither empty nor starts with ["#"] is not valid UTF-8, the
    first and the last line and lines ended by [\r] or [\r\n] included; it
    makes that one GET and nothing else.  Lines starting with ["#"] are never
    decoded: the result depends only on the lines kept. *)
Theorem fetch_plain_lines_decode (w : web) (url : string) (tr : list request) (raw : pybytes) :
  http_get_oracle w tr (url, ACCEPT_PLAIN) = GetOk raw ->
  (fetch_plain_lines w url tr = (WErr UnicodeDecodeError, tr ++ [(url, ACCEPT_PLAIN)]) <->
   exists l, In l (splitlines raw) /\ skip_line l = false /\ decode_utf8 l = None) /\
  (forall a l b,
     raw = a ++ l ++ b -> l <> [] -> no_line_break l = true ->
     (a = [] \/ exists a0, a = a0 ++ [10] \/ a = a0 ++ [13]) ->
     (b = [] \/ exists b0, b = 10 :: b0 \/ b = 13 :: b0) ->
     skip_line l = false -> decode_utf8 l = None ->
     fetch_plain_lines w url tr = (WErr UnicodeDecodeError, tr ++ [(url, ACCEPT_PLAIN)])) /\
  (forall lines,
     plain_lines_loop lines = plain_lines_loop (filter (fun l => negb (skip_line l)) lines)).
Proof.
  intros Hg. pose proof (fetch_plain_lines_ok w url tr raw Hg) as Hf.
  assert (P1 : fetch_plain_lines w url tr = (WErr UnicodeDecodeError, tr ++ [(url, ACCEPT_PLAIN)]) <->
               exists l, In l (splitlines raw) /\ skip_line l = false /\ decode_utf8 l = None).
  { rewrite Hf, <- plain_lines_loop_none.
    destruct (plain_lines_loop (splitlines raw)); split; intros H; inversion H; reflexivity. }
  split; [exact P1|]. split; [|exact plain_lines_loop_filter].
  intros a l b Hraw Hne Hl Ha Hb Hs Hd. apply P1.
  destruct (splitlines_line a l b Hne Hl Ha Hb) as (x & y & Hxy). rewrite <- Hraw in Hxy.
  exists l. split; [|split; assumption]. rewrite Hxy. apply in_or_app. right. left. reflexivity.
Qed.

Lemma fetch_plain_lines_decode_witness :
  let body := [255; 46] ++ [13] ++ txt "1.0.0.0/8" in
  let w := DemoWeb.api_ok (GetOk body) (GetOk DemoWeb.v6_body) in
  fetch_plain_lines w CF_V4_URL [] = (WErr UnicodeDecodeError, [] ++ [(CF_V4_URL, ACCEPT_PLAIN)]) /\
  plain_lines_loop (splitlines ([35; 255] ++ [13; 10] ++ txt "1.0.0.0/8"))
  = plain_lines_loop [txt "1.0.0.0/8"].
Proof.
  intros body w.
  destruct (fetch_plain_lines_decode w CF_V4_URL [] body eq_refl) as (_ & H2 & H3).
  split.
  - apply (H2 [] [255; 46] ([13] ++ txt "1.0.0.0/8")).
    + reflexivity.
    + discriminate.
    + reflexivity.
    + left. reflexivity.
    + right. eexists. right. reflexivity.
    + reflexivity.
    + reflexivity.
  - rewrite H3. reflexivity.
Defined.

(** ** [fetch_via_api] *)

Section ViaApi.

Variable w : web.
Variable tr : list request.

(** The ["result"] object of the Cloudflare API answer: without it both
    lists are empty; an address family whose key is missing, or whose value
    is falsy (null, [], "", 0, false, {}), gives an empty list; any other
    value is returned as it is, without a check that it is a list. *)
Theorem fetch_via_api_defaults (raw : pybytes) (s : pystr) (data : list (pystr * json)) :
  http_get_oracle w tr API_REQUEST = GetOk raw -> decode_utf8 raw = Some s ->
  json_loads w s = Some (JObj data) ->
  (json_get data (txt "result") = None ->
   fetch_via_api w tr = (WOk (JArr [], JArr []), tr ++ [API_REQUEST])) /\
  (forall res, json_get data (txt "result") = Some (JObj res) ->
   exists v4 v6, fetch_via_api w tr = (WOk (v4, v6), tr ++ [API_REQUEST]) /\
     (forall k v, (k, v) = (txt "ipv4_cidrs", v4) \/ (k, v) = (txt "ipv6_cidrs", v6) ->
        (forall x, json_get res k = Some x -> json_truthy x = true -> v = x) /\
        ((json_get res k = None \/ exists x, json_get res k = Some x /\ json_truthy x = false) ->
         v = JArr []))).
Proof.
  intros Hg Hd Hj. unfold fetch_via_api, wbind, http_get, API_REQUEST in *. rewrite Hg, Hd, Hj.
  split.
  - intros Hr. unfold json_get_or at 1. rewrite Hr. reflexivity.
  - intros res Hr. unfold json_get_or at 1. rewrite Hr.
    eexists; eexists; split; [reflexivity|].
    intros k v Hkv.
    destruct Hkv as [Hkv|Hkv]; inversion Hkv; subst k v; unfold json_get_or, json_or; split.
    1, 3: intros x Hx Ht; rewrite Hx, Ht; reflexivity.
    all: intros [Hn|(x & Hx & Ht)]; [rewrite Hn; reflexivity|rewrite Hx, Ht; reflexivity].
Qed.

(** What makes [fetch_via_api] raise: an undecodable body, a body that is
    not JSON, a document that is not an object, or a ["result"] that is
    present but not an object ([null] included: [dict.get] returns it rather
    than the default); a failed GET propagates its error.  It makes one
    request in every case. *)
Theorem fetch_via_api_errors :
  (forall o, (forall b, o <> GetOk b) -> http_get_oracle w tr API_REQUEST = o ->
   exists e, fetch_via_api w tr = (WErr e, tr ++ [API_REQUEST]) /\
     (forall c, o = GetHTTPError c -> e = HTTPError c) /\
     (forall r, o = GetURLError r -> e = URLError r) /\
     (forall m, o = GetOtherError m -> e = OtherError m)) /\
  (forall raw, http_get_oracle w tr API_REQUEST = GetOk raw -> decode_utf8 raw = None ->
   fetch_via_api w tr = (WErr UnicodeDecodeError, tr ++ [API_REQUEST])) /\
  (forall raw s, http_get_oracle w tr API_REQUEST = GetOk raw -> decode_utf8 raw = Some s ->
   json_loads w s = None -> fetch_via_api w tr = (WErr JSONDecodeError, tr ++ [API_REQUEST])) /\
  (forall raw s j, http_get_oracle w tr API_REQUEST = GetOk raw -> decode_utf8 raw = Some s ->
   json_loads w s = Some j -> (forall data, j <> JObj data) ->
   fetch_via_api w tr = (WErr AttributeError, tr ++ [API_REQUEST])) /\
  (forall raw s data r, http_get_oracle w tr API_REQUEST = GetOk raw -> decode_utf8 raw = Some s ->
   json_loads w s = Some (JObj data) -> json_get data (txt "result") = Some r ->
   (forall res, r <> JObj res) ->
   fetch_via_api w tr = (WErr AttributeError, tr ++ [API_REQUEST])).
Proof.
  unfold fetch_via_api, wbind, http_get, API_REQUEST in *. 
  split; [|split; [|split; [|split]]].
  - intros o Hnot Hg. rewrite Hg.
    destruct o as [b|c|r|m]; [exfalso; exact (Hnot b eq_refl)| | |].
    all: eexists; split; [reflexivity|].
    all: repeat split; intros ? E; inversion E; reflexivity.
  - intros raw Hg Hd. rewrite Hg, Hd. reflexivity.
  - intros raw s Hg Hd Hj. rewrite Hg, Hd, Hj. reflexivity.
  - intros raw s j Hg Hd Hj Hn. rewrite Hg, Hd, Hj.
    destruct j as [| | | | |data]; try reflexivity. exfalso. exact (Hn data eq_refl).
  - intros raw s data r Hg Hd Hj Hr Hn. rewrite Hg, Hd, Hj. unfold json_get_or. rewrite Hr.
    destruct r as [| | | | |res]; try reflexivity. exfalso. exact (Hn res eq_refl).
Qed.

End ViaApi.

Lemma fetch_via_api_defaults_witness :
  fetch_via_api (DemoWeb.web_of (GetOk []) (GetOk []) (GetOk (txt "{}")) (txt "{}") (JObj [])) []
  = (WOk (JArr [], JArr []), [API_REQUEST]).
Proof.
  apply (proj1 (fetch_via_api_defaults
                  (DemoWeb.web_of (GetOk []) (GetOk []) (GetOk (txt "{}")) (txt "{}") (JObj []))
                  [] (txt "{}") (txt "{}") [] eq_refl eq_refl eq_refl)).
  reflexivity.
Defined.

Lemma fetch_via_api_errors_witness :
  let doc := txt ("{" ++ DemoWeb.dq ++ "result" ++ DemoWeb.dq ++ ":null}") in
  fetch_via_api (DemoWeb.web_of (GetOk []) (GetOk []) (GetOk doc) doc
                   (JObj [(txt "result", JNull)])) []
  = (WErr AttributeError, [API_REQUEST]).
Proof.
  intros doc.
  apply (proj2 (proj2 (proj2 (proj2 (fetch_via_api_errors
           (DemoWeb.web_of (GetOk []) (GetOk []) (GetOk doc) doc (JObj [(txt "result", JNull)])) []))))
           doc doc [(txt "result", JNull)] JNull eq_refl).
  - vm_compute. reflexivity.
  - vm_compute. reflexivity.
  - reflexivity.
  - intros res E. discriminate E.
Defined.

(** ** [fetch_cloudflare_ips] *)

Section CloudflareIps.

Variable w : web.

Ltac cf_unfold :=
  unfold fetch_cloudflare_ips, wtry_url, fetch_plain_lines, wbind, http_get, wret, wraise,
    V4_REQUEST, V6_REQUEST in *; cbv beta zeta.

(** When both plain-text downloads succeed and one of the two lists is not
    empty, [fetch_cloudflare_ips] returns the two lists as read, after
    exactly the two GETs: the JSON API is not called. *)
Theorem fetch_cf_plain (tr : list request) (b4 b6 : pybytes) (l4 l6 : list pystr) :
  http_get_oracle w tr V4_REQUEST = GetOk b4 ->
  plain_lines_loop (splitlines b4) = Some l4 ->
  http_get_oracle w (tr ++ [V4_REQUEST]) V6_REQUEST = GetOk b6 ->
  plain_lines_loop (splitlines b6) = Some l6 ->
  l4 <> [] \/ l6 <> [] ->
  fetch_cloudflare_ips w tr = (WOk (jlist l4, jlist l6), tr ++ [V4_REQUEST; V6_REQUEST]).
Proof.
  intros H4 L4 H6 L6 Hne. cf_unfold. rewrite H4; cbv beta iota; rewrite L4; cbv beta iota; rewrite H6; cbv beta iota;
    rewrite L6; cbv beta iota.
  assert (E : nonnil l4 || nonnil l6 = true).
  { destruct Hne as [H|H]; [destruct l4|destruct l6]; try contradiction; simpl;
      [reflexivity|apply orb_true_r]. }
  rewrite E, <- app_assoc. reflexivity.
Qed.

(** The fallback to the JSON API: an [HTTPError] or [URLError] on the IPv4
    download (the IPv6 list is then not requested), the same errors on the
    IPv6 download (the IPv4 list read is discarded), or two empty lists, all
    lead to [fetch_via_api], run after the requests already made. *)
Theorem fetch_cf_fallback (tr : list request) :
  (forall o, url_failure o -> http_get_oracle w tr V4_REQUEST = o ->
   fetch_cloudflare_ips w tr = fetch_via_api w (tr ++ [V4_REQUEST])) /\
  (forall b4 l4 o, http_get_oracle w tr V4_REQUEST = GetOk b4 ->
   plain_lines_loop (splitlines b4) = Some l4 ->
   url_failure o -> http_get_oracle w (tr ++ [V4_REQUEST]) V6_REQUEST = o ->
   fetch_cloudflare_ips w tr = fetch_via_api w (tr ++ [V4_REQUEST; V6_REQUEST])) /\
  (forall b4 b6, http_get_oracle w tr V4_REQUEST = GetOk b4 ->
   plain_lines_loop (splitlines b4) = Some [] ->
   http_get_oracle w (tr ++ [V4_REQUEST]) V6_REQUEST = GetOk b6 ->
   plain_lines_loop (splitlines b6) = Some [] ->
   fetch_cloudflare_ips w tr = fetch_via_api w (tr ++ [V4_REQUEST; V6_REQUEST])).
Proof.
  split; [|split].
  - intros o Ho H4. cf_unfold. rewrite H4.
    destruct Ho as [[c ->]|[r ->]]; reflexivity.
  - intros b4 l4 o H4 L4 Ho H6. cf_unfold. rewrite H4; cbv beta iota; rewrite L4; cbv beta iota; rewrite H6; cbv beta iota;
    rewrite <- app_assoc.
    destruct Ho as [[c ->]|[r ->]]; reflexivity.
  - intros b4 b6 H4 L4 H6 L6. cf_unfold. rewrite H4; cbv beta iota; rewrite L4; cbv beta iota; rewrite H6; cbv beta iota;
    rewrite L6; cbv beta iota; rewrite <- app_assoc. reflexivity.
Qed.

(** The other failures of the plain-text downloads are not caught: another
    error of a GET, or a line that is not valid UTF-8, ends
    [fetch_cloudflare_ips] with that error, and the JSON API is never
    called. *)
Theorem fetch_cf_errors_propagate (tr : list request) :
  (forall m, http_get_oracle w tr V4_REQUEST = GetOtherError m ->
   fetch_cloudflare_ips w tr = (WErr (OtherError m), tr ++ [V4_REQUEST])) /\
  (forall b4, http_get_oracle w tr V4_REQUEST = GetOk b4 ->
   plain_lines_loop (splitlines b4) = None ->
   fetch_cloudflare_ips w tr = (WErr UnicodeDecodeError, tr ++ [V4_REQUEST])) /\
  (forall b4 l4 m, http_get_oracle w tr V4_REQUEST = GetOk b4 ->
   plain_lines_loop (splitlines b4) = Some l4 ->
   http_get_oracle w (tr ++ [V4_REQUEST]) V6_REQUEST = GetOtherError m ->
   fetch_cloudflare_ips w tr = (WErr (OtherError m), tr ++ [V4_REQUEST; V6_REQUEST])) /\
  (forall b4 l4 b6, http_get_oracle w tr V4_REQUEST = GetOk b4 ->
   plain_lines_loop (splitlines b4) = Some l4 ->
   http_get_oracle w (tr ++ [V4_REQUEST]) V6_REQUEST = GetOk b6 ->
   plain_lines_loop (splitlines b6) = None ->
   fetch_cloudflare_ips w tr = (WErr UnicodeDecodeError, tr ++ [V4_REQUEST; V6_REQUEST])).
Proof.
  split; [|split; [|split]].
  - intros m H4. cf_unfold. rewrite H4. reflexivity.
  - intros b4 H4 L4. cf_unfold. rewrite H4, L4. reflexivity.
  - intros b4 l4 m H4 L4 H6. cf_unfold. rewrite H4; cbv beta iota; rewrite L4; cbv beta iota; rewrite H6; cbv beta iota;
    rewrite <- app_assoc. reflexivity.
  - intros b4 l4 b6 H4 L4 H6 L6. cf_unfold. rewrite H4; cbv beta iota; rewrite L4; cbv beta iota; rewrite H6; cbv beta iota;
    rewrite L6; cbv beta iota; rewrite <- app_assoc. reflexivity.
Qed.

End CloudflareIps.

Lemma fetch_cf_plain_witness :
  fetch_cloudflare_ips (DemoWeb.api_ok (GetOk DemoWeb.v4_body) (GetOk DemoWeb.v6_body)) []
  = (WOk (jlist [txt "173.245.48.0/20"; txt "103.21.244.0/22"], jlist [txt "2400:cb00::/32"]),
     [V4_REQUEST; V6_REQUEST]).
Proof.
  apply (fetch_cf_plain (DemoWeb.api_ok (GetOk DemoWeb.v4_body) (GetOk DemoWeb.v6_body)) []
           DemoWeb.v4_body DemoWeb.v6_body).
  - reflexivity.
  - vm_compute. reflexivity.
  - reflexivity.
  - vm_compute. reflexivity.
  - left. discriminate.
Defined.

Lemma fetch_cf_fallback_witness :
  fetch_cloudflare_ips (DemoWeb.api_ok (GetHTTPError 403) (GetOk DemoWeb.v6_body)) []
  = (WOk (JArr [JStr (txt "173.245.48.0/20")], JArr []), [V4_REQUEST; API_REQUEST]).
Proof.
  rewrite (proj1 (fetch_cf_fallback (DemoWeb.api_ok (GetHTTPError 403) (GetOk DemoWeb.v6_body)) [])
             (GetHTTPError 403) (or_introl (ex_intro _ 403 eq_refl)) eq_refl).
  vm_compute. reflexivity.
Defined.

Lemma fetch_cf_errors_propagate_witness :
  fetch_cloudflare_ips (DemoWeb.api_ok (GetOtherError "timed out") (GetOk DemoWeb.v6_body)) []
  = (WErr (OtherError "timed out"), [V4_REQUEST]).
Proof.
  apply (proj1 (fetch_cf_errors_propagate
                  (DemoWeb.api_ok (GetOtherError "timed out") (GetOk DemoWeb.v6_body)) [])).
  reflexivity.
Defined.

(** ** The Slack part of [handler] *)

Lemma nonnil_filter {A} (f : A -> bool) (l : list A) : nonnil (filter f l) = existsb f l.
Proof.
  induction l as [|x l IH]; [reflexivity|]. simpl. destruct (f x); [reflexivity|exact IH].
Qed.

Ltac slack_close :=
  split; [split; [intros (wh0 & t0 & Hin) | intros Hc] |
          split; [intros wh0 t0 Hin | split; [intros Hin | intros Hc]]];
  simpl in *;
  repeat match goal with
         | H : _ /\ _ |- _ => destruct H
         | H : _ \/ _ |- _ => destruct H
         | H : SlackPost _ _ = SlackPost _ _ |- _ => injection H; clear H; intros; subst
         end;
  try discriminate; try contradiction; try (do 2 eexists; left; reflexivity);
  repeat split; try reflexivity; try discriminate; try contradiction; auto.

(** The Slack report: when the reconciliation raises, nothing is posted or
    printed.  Otherwise exactly the events between the reconciliation and the
    final summary print are added: a POST happens iff [SLACK_NOTIFY] is
    true, [SLACK_WEBHOOK_URL] is set and not empty, and some result
    changed; it goes to that webhook with the report of the changed results
    only; ["slack_skipped"] is printed iff notification is on with a
    webhook but nothing changed. *)
Theorem lambda_handler_slack (g : globals) (cfg : config) (senv : slack_env) (post : poster)
    (v4 v6 : list string) (tr : trace) (ev : list slack_event) :
  (forall e tr', handler g cfg v4 v6 tr = (Err e, tr') ->
   lambda_handler g cfg senv post v4 v6 tr ev = (Err e, tr', ev)) /\
  (forall out tr', handler g cfg v4 v6 tr = (Ok out, tr') ->
   exists ev', lambda_handler g cfg senv post v4 v6 tr ev = (Ok out, tr', ev ++ ev' ++ [PrintSummary]) /\
     ((exists wh t, In (SlackPost wh t) ev') <->
        env_bool (SLACK_NOTIFY senv) false = true /\ opt_nonnil (SLACK_WEBHOOK_URL senv) = true /\
        existsb changed (summary_result out) = true) /\
     (forall wh t, In (SlackPost wh t) ev' ->
        SLACK_WEBHOOK_URL senv = Some wh /\
        t = join [10] (slack_lines (ACCOUNT g) (DEFAULT_REGION g)
                         (filter changed (summary_result out)) (counts out))) /\
     (In PrintSlackSkipped ev' <->
        env_bool (SLACK_NOTIFY senv) false = true /\ opt_nonnil (SLACK_WEBHOOK_URL senv) = true /\
        existsb changed (summary_result out) = false)).
Proof.
  split.
  - intros e tr' H. unfold lambda_handler. rewrite H. reflexivity.
  - intros out tr' H. unfold lambda_handler. rewrite H. cbv zeta.
    rewrite nonnil_filter.
    destruct (env_bool (SLACK_NOTIFY senv) false) eqn:Ef;
      destruct (SLACK_WEBHOOK_URL senv) as [wh|] eqn:Ew;
      destruct (existsb changed (summary_result out)) eqn:Ec;
      cbn [andb opt_nonnil].
    + destruct (nonnil wh) eqn:En; cbn [andb].
      * unfold notify_slack.
        set (T := join [10] (slack_lines (ACCOUNT g) (DEFAULT_REGION g)
                               (filter changed (summary_result out)) (counts out))).
        destruct (post ev wh T) as [code body|msg].
        -- exists [SlackPost wh T; PrintSlackStatus code].
           split; [rewrite <- !app_assoc; reflexivity|]. slack_close.
        -- exists [SlackPost wh T; PrintSlackError msg].
           split; [rewrite <- !app_assoc; reflexivity|]. slack_close.
      * exists []. split; [reflexivity|]. slack_close.
    + destruct (nonnil wh) eqn:En; cbn [andb].
      * exists [PrintSlackSkipped]. split; [rewrite <- app_assoc; reflexivity|]. slack_close.
      * exists []. split; [reflexivity|]. slack_close.
    + exists []. split; [reflexivity|]. slack_close.
    + exists []. split; [reflexivity|]. slack_close.
    + exists []. split; [reflexivity|]. slack_close.
    + exists []. split; [reflexivity|]. slack_close.
    + exists []. split; [reflexivity|]. slack_close.
    + exists []. split; [reflexivity|]. slack_close.
Qed.

Lemma lambda_handler_slack_witness :
  exists out tr' ev',
    lambda_handler (mkGlobals "111" "us-east-1" (fun _ => Demo.east))
      (mkConfig None (Some "pl-4") None None None None None)
      (mkSlackEnv (Some (txt " Yes")) (Some (txt "https://hooks.slack.com/services/T0/B0/x")))
      (fun _ _ _ => Posted 200 (txt "ok")) ["10.1.0.0/16"] [] [] []
    = (Ok out, tr', ev') /\ exists wh t, In (SlackPost wh t) ev'.
Proof.
  set (h := handler (mkGlobals "111" "us-east-1" (fun _ => Demo.east))
              (mkConfig None (Some "pl-4") None None None None None) ["10.1.0.0/16"] [] []).
  assert (E : h = (Ok (match fst h with
                       | Ok o => o
                       | Err _ => mkSummary "" "" (None, None) (0, 0) []
                       end), snd h)) by (vm_compute; reflexivity).
  destruct (proj2 (lambda_handler_slack (mkGlobals "111" "us-east-1" (fun _ => Demo.east))
                     (mkConfig None (Some "pl-4") None None None None None)
                     (mkSlackEnv (Some (txt " Yes")) (Some (txt "https://hooks.slack.com/services/T0/B0/x")))
                     (fun _ _ _ => Posted 200 (txt "ok")) ["10.1.0.0/16"] [] [] []) _ _ E)
    as (ev' & Hl & Hpost & _).
  do 3 eexists. split; [exact Hl|].
  destruct (proj2 Hpost) as (wh & t & Hin); [vm_compute; auto|].
  exists wh, t. apply in_or_app. right. apply in_or_app. left. exact Hin.
Defined.

(** ** The retry schedule of [_describe_pl_with_retries] *)

Lemma safe_d_paginate describe absorb fuel token st :
  (forall t, Safe describe_call not_capacity (describe t)) ->
  Safe describe_call not_capacity (paginate describe absorb fuel token st).
Proof.
  intros Hd. revert token st. induction fuel as [|f IH]; intros token st; simpl; safe_tac.
Qed.
#[export] Hint Resolve safe_d_paginate : safe.

Lemma safe_d_describe_managed ec2 ids tok :
  Safe describe_call not_capacity (_describe_managed_pls ec2 ids tok).
Proof. unfold _describe_managed_pls. safe_tac. Qed.

Lemma safe_d_describe_prefix ec2 tok :
  Safe describe_call not_capacity (_describe_prefix_pls ec2 tok).
Proof. unfold _describe_prefix_pls. safe_tac. Qed.
#[export] Hint Resolve safe_d_describe_managed safe_d_describe_prefix : safe.

Lemma safe_d_list_all ec2 : Safe describe_call not_capacity (_list_all_pls ec2).
Proof. unfold _list_all_pls. safe_tac. Qed.
#[export] Hint Resolve safe_d_list_all : safe.

Lemma safe_d_find_pl ec2 id name : Safe describe_call not_capacity (_find_pl ec2 id name).
Proof. unfold _find_pl. safe_tac. Qed.

Lemma describe_no_sleep (ext : trace) : forallb describe_call ext = true -> filter is_sleep ext = [].
Proof.
  induction ext as [|c ext IH]; intros H; [reflexivity|].
  simpl in H. apply andb_true_iff in H as [Hc H].
  destruct c; try discriminate; simpl; apply IH, H.
Qed.

Lemma sleep_units_filter (ext : trace) : sleep_units ext = sleep_units (filter is_sleep ext).
Proof.
  induction ext as [|c ext IH]; [reflexivity|].
  destruct c; simpl; rewrite ?IH; reflexivity.
Qed.

Lemma sleep_units_seq (n : nat) : forall i,
  sleep_units (map CSleep (seq i n)) = 2 ^ Z.of_nat (i + n) - 2 ^ Z.of_nat i.
Proof.
  induction n as [|n IH]; intros i.
  - rewrite Nat.add_0_r. simpl. lia.
  - cbn [seq map sleep_units fold_right]. fold (sleep_units (map CSleep (seq (S i) n))).
    rewrite IH. replace (S i + n)%nat with (i + S n)%nat by lia.
    rewrite Nat2Z.inj_succ, Z.pow_succ_r by lia. lia.
Qed.

Lemma describe_or_sleep (ext : trace) :
  forallb describe_call ext = true -> forallb (fun c => describe_call c || is_sleep c) ext = true.
Proof.
  intros H. rewrite forallb_forall in *. intros c Hc. rewrite (H c Hc). reflexivity.
Qed.

Lemma retry_loop_schedule ec2 id name :
  (forall t, fst (_find_pl ec2 id name t) = Ok None) ->
  (forall t, exists l, fst (_list_all_pls ec2 t) = Ok l) ->
  forall n i seen0 tr r tr',
    retry_loop ec2 id name i n seen0 tr = (r, tr') ->
    exists ext seen, tr' = tr ++ ext /\ filter is_sleep ext = map CSleep (seq i n) /\
      forallb (fun c => describe_call c || is_sleep c) ext = true /\
      r = Ok (inr seen) /\ (n = 0%nat -> seen = seen0 /\ ext = []) /\
      (n <> 0%nat -> exists tl tl', _list_all_pls ec2 tl = (Ok seen, tl') /\
                                    tr' = tl' ++ [CSleep (i + n - 1)]).
Proof.
  intros Hf Hl n. induction n as [|n IH]; intros i seen0 tr r tr' H.
  - simpl in H. inversion H; subst. exists [], seen0. rewrite app_nil_r.
    split; [reflexivity|]. split; [reflexivity|]. split; [reflexivity|].
    split; [reflexivity|]. split; [auto|]. intros Hn. contradiction Hn. reflexivity.
  - simpl in H. unfold bind at 1 in H.
    destruct (_find_pl ec2 id name tr) as [f t1] eqn:E1.
    pose proof (Hf tr) as F. rewrite E1 in F. simpl in F. subst f.
    destruct (safe_d_find_pl ec2 id name tr _ _ E1) as [(ext1 & -> & P1) _].
    unfold bind at 1 in H.
    destruct (_list_all_pls ec2 (tr ++ ext1)) as [l t2] eqn:E2.
    destruct (Hl (tr ++ ext1)) as [seen1 L]. rewrite E2 in L. simpl in L. subst l.
    destruct (safe_d_list_all ec2 (tr ++ ext1) _ _ E2) as [(ext2 & -> & P2) _].
    unfold bind, sleep in H.
    destruct (IH (S i) seen1 _ _ _ H) as (ext3 & seen & -> & S3 & D3 & -> & Z3 & L3).
    exists (ext1 ++ ext2 ++ [CSleep i] ++ ext3), seen.
    split; [rewrite !app_assoc; reflexivity|].
    split; [|split; [|split; [reflexivity|split; [intros; discriminate|]]]].
    + rewrite !filter_app, (describe_no_sleep ext1 P1), (describe_no_sleep ext2 P2), S3.
      reflexivity.
    + rewrite !forallb_app, (describe_or_sleep ext1 P1), (describe_or_sleep ext2 P2), D3.
      reflexivity.
    + intros _. destruct n as [|n].
      * destruct (Z3 eq_refl) as [-> ->].
        exists (tr ++ ext1), ((tr ++ ext1) ++ ext2). split; [exact E2|].
        rewrite app_nil_r. replace (i + 1 - 1)%nat with i by lia. reflexivity.
      * destruct (L3 ltac:(discriminate)) as (tl & tl' & Hl' & ->).
        exists tl, tl'. split; [exact Hl'|].
        replace (i + S (S n) - 1)%nat with (S i + S n - 1)%nat by lia. reflexivity.
Qed.

(** When the list is never found, [_describe_pl_with_retries] sleeps once
    per attempt, [backoff * 2 ** i] for [i = 0 .. attempts - 1] in this
    order ([2 ** attempts - 1] times [backoff] in all, 127.5 s for the 8
    attempts [apply_delta] asks for), makes no other call than the
    discovery reads, and raises the not-found error with a preview of at
    most 20 lists of the last listing: the records [_list_all_pls]
    returned just before the last sleep, which is the last call of the
    run (no list at all when [attempts] is 0). *)
Theorem describe_retries_schedule (acct : string) (ec2 : client) (id name : option string)
    (attempts : nat) (tr : trace) (r : res pl) (tr' : trace) :
  (forall t, fst (_find_pl ec2 id name t) = Ok None) ->
  (forall t, exists l, fst (_list_all_pls ec2 t) = Ok l) ->
  _describe_pl_with_retries acct ec2 id name attempts tr = (r, tr') ->
  exists ext seen, tr' = tr ++ ext /\
    filter is_sleep ext = map CSleep (seq 0 attempts) /\
    sleep_units ext = 2 ^ Z.of_nat attempts - 1 /\
    forallb (fun c => describe_call c || is_sleep c) ext = true /\
    r = Err (NotFoundError attempts acct (region_name ec2) id name
               (map preview_of (firstn 20 seen))) /\
    (attempts = 0%nat -> seen = []) /\
    (attempts <> 0%nat -> exists tl tl', _list_all_pls ec2 tl = (Ok seen, tl') /\
                                         tr' = tl' ++ [CSleep (attempts - 1)]).
Proof.
  intros Hf Hl H. unfold _describe_pl_with_retries, bind in H.
  destruct (retry_loop ec2 id name 0 attempts [] tr) as [r0 t0] eqn:E.
  destruct (retry_loop_schedule ec2 id name Hf Hl attempts 0 [] tr _ _ E)
    as (ext & seen & -> & Hs & Hd & -> & H0 & HL).
  inversion H; subst. exists ext, seen.
  split; [reflexivity|]. split; [exact Hs|].
  split; [rewrite sleep_units_filter, Hs, sleep_units_seq; reflexivity|].
  split; [exact Hd|]. split; [reflexivity|]. split; [intros Ha; apply H0, Ha|exact HL].
Qed.

Lemma describe_retries_schedule_witness :
  exists r tr', _describe_pl_with_retries "111" Demo.east (Some "pl-x") None 8 [] = (r, tr') /\
  sleep_units tr' = 255 /\
  r = Err (NotFoundError 8 "111" "us-east-1" (Some "pl-x") None
             [(Some "pl-4", Some "cf-v4", Some "111"); (Some "pl-aws", Some "aws-managed", Some "AWS");
              (Some "pl-0", Some "cf-v0", Some "111")]).
Proof.
  destruct (_describe_pl_with_retries "111" Demo.east (Some "pl-x") None 8 []) as [r tr'] eqn:E.
  exists r, tr'. split; [reflexivity|].
  destruct (describe_retries_schedule "111" Demo.east (Some "pl-x") None 8 [] r tr')
    as (ext & seen & -> & _ & Hu & _ & Hr & _ & HL).
  - intros t. vm_compute. reflexivity.
  - intros t. eexists. vm_compute. reflexivity.
  - exact E.
  - split; [exact Hu|]. rewrite Hr.
    destruct (HL ltac:(discriminate)) as (tl & tl' & Hs & _).
    assert (Hseen : fst (_list_all_pls Demo.east tl) = Ok seen) by (rewrite Hs; reflexivity).
    vm_compute in Hseen. injection Hseen as <-. reflexivity.
Defined.

(** ** Which list [apply_delta] reads and writes *)

Section Addressing.

Variable pid d : string.

Lemma safe_a_weak {A} (m : M A) : Safe describe_call not_capacity m -> Safe (reconcile_call_ok pid d) any_exn m.
Proof.
  apply safe_weaken; [|reflexivity].
  intros c Hc. destruct c; try discriminate; reflexivity.
Qed.

Lemma safe_a_find_pl ec2 id name : Safe (reconcile_call_ok pid d) any_exn (_find_pl ec2 id name).
Proof. apply safe_a_weak, safe_d_find_pl. Qed.

Lemma safe_a_list_all ec2 : Safe (reconcile_call_ok pid d) any_exn (_list_all_pls ec2).
Proof. apply safe_a_weak, safe_d_list_all. Qed.

Lemma safe_a_retry_loop ec2 id name i n seen :
  Safe (reconcile_call_ok pid d) any_exn (retry_loop ec2 id name i n seen).
Proof.
  revert i seen. induction n as [|n IH]; intros i seen; simpl.
  - apply safe_ret.
  - apply safe_bind; [apply safe_a_find_pl|intros [p|]].
    + apply safe_ret.
    + apply safe_bind; [apply safe_a_list_all|intros seen'].
      apply safe_bind; [apply safe_sleep; reflexivity|intros _]. apply IH.
Qed.

Lemma safe_a_describe_pl_with_retries acct ec2 id name attempts :
  Safe (reconcile_call_ok pid d) any_exn (_describe_pl_with_retries acct ec2 id name attempts).
Proof.
  unfold _describe_pl_with_retries.
  apply safe_bind; [apply safe_a_retry_loop|intros [p|seen]];
    [apply safe_ret|apply safe_raise; reflexivity].
Qed.

Lemma safe_a_entries_loop ec2 fuel token have :
  Safe (reconcile_call_ok pid d) any_exn (entries_loop ec2 pid fuel token have).
Proof.
  revert token have. induction fuel as [|f IH]; intros token have; simpl.
  - apply safe_raise. reflexivity.
  - apply safe_bind.
    + apply safe_ec2_call; [|reflexivity]. simpl. apply String.eqb_refl.
    + intros resp. destruct (ostr_truthy (EntriesNextToken resp)); [apply IH|apply safe_ret].
Qed.

Lemma safe_a_get_pl_entries acct ec2 name :
  Safe (reconcile_call_ok pid d) any_exn (get_pl_entries acct ec2 pid name).
Proof.
  unfold get_pl_entries.
  apply safe_bind; [apply safe_a_describe_pl_with_retries|intros p].
  apply safe_bind; [apply safe_a_entries_loop|intros have]. apply safe_ret.
Qed.

Lemma safe_a_modify acct ec2 name ab rb v :
  adds_described d (nonempty ab) = true ->
  Safe (reconcile_call_ok pid d) any_exn (_modify acct ec2 pid name ab rb v).
Proof.
  intros Hab. unfold _modify.
  assert (Hc : forall r v', reconcile_call_ok pid d (CModify r (mkModify pid v' (nonempty ab) (nonempty rb))) = true).
  { intros r v'. cbn [reconcile_call_ok MPrefixListId MAddEntries].
    rewrite String.eqb_refl, Hab. reflexivity. }
  apply safe_try_client; [apply safe_ec2_call; [apply Hc|reflexivity]|intros msg].
  destruct (is_version_conflict msg); [|apply safe_raise; reflexivity].
  apply safe_bind; [apply safe_a_describe_pl_with_retries|intros fresh].
  apply safe_ec2_call; [apply Hc|reflexivity].
Qed.

Lemma safe_a_batch_loop acct ec2 name abs rbs fuel ai ri v :
  (forall b, In b abs -> forallb (fun e => String.eqb (AddDescription e) d) b = true) ->
  Safe (reconcile_call_ok pid d) any_exn (batch_loop acct ec2 pid name abs rbs fuel ai ri v).
Proof.
  intros Habs. revert ai ri v. induction fuel as [|f IH]; intros ai ri v; simpl; [apply safe_ret|].
  destruct ((ai <? length abs)%nat || (ri <? length rbs)%nat); [|apply safe_ret].
  apply safe_bind; [|intros v'; apply IH].
  apply safe_a_modify.
  destruct (ai <? length abs)%nat; [|reflexivity].
  destruct (nth_error abs ai) as [b|] eqn:E; [|reflexivity].
  apply nth_error_In in E. specialize (Habs b E).
  destruct b; [reflexivity|exact Habs].
Qed.

Lemma chunks_elements {A} (n : nat) (l : list A) b x :
  In b (_chunks n l) -> In x b -> In x l.
Proof.
  intros Hb Hx. rewrite <- (chunks_go_concat n (length l) l).
  apply in_concat. exists b. split; assumption.
Qed.

End Addressing.

Lemma safe_a_apply_delta pid d acct ec2 desc want name owner :
  d = entry_description desc ->
  Safe (reconcile_call_ok pid d) any_exn (apply_delta acct ec2 pid desc want name owner).
Proof.
  intros ->. unfold apply_delta. apply safe_bind; [apply safe_a_get_pl_entries|].
  intros [[[v have] m] o]. unfold apply_delta_body.
  destruct (str_truthy o && negb (String.eqb o owner)); [apply safe_ret|].
  destruct (negb (m =? 0) && (zlen (py_set want) >? m)); [apply safe_raise; reflexivity|].
  destruct (delta (py_set want) have) as [to_add to_remove].
  destruct to_add as [|a to_add]; [destruct to_remove as [|x to_remove]; [apply safe_ret|]|].
  all: apply safe_bind; [apply safe_a_batch_loop|intros; apply safe_ret].
  all: intros b Hb; apply forallb_forall; intros e He;
       pose proof (chunks_elements _ _ b e Hb He) as Hin; apply in_map_iff in Hin;
       destruct Hin as (c & <- & _); apply String.eqb_refl.
Qed.

(** [apply_delta] reads the entries of, and modifies, only the list whose
    id it was given: every entries read and every modify call it makes
    names [prefix_list_id], whatever list the lookup located (by id or by
    the fallback name), and every entry it adds carries the description
    [(desc or "Cloudflare IP")[:100]]. *)
Theorem apply_delta_addressing acct ec2 pid desc want name owner tr r tr' :
  apply_delta acct ec2 pid desc want name owner tr = (r, tr') ->
  exists ext, tr' = tr ++ ext /\
    forall c, In c ext -> reconcile_call_ok pid (entry_description desc) c = true.
Proof.
  intros H.
  destruct (safe_a_apply_delta pid _ acct ec2 desc want name owner eq_refl tr r tr' H)
    as [(ext & -> & Hext) _].
  exists ext. split; [reflexivity|]. apply forallb_forall. exact Hext.
Qed.

Lemma apply_delta_addressing_witness :
  exists ext,
    snd (apply_delta "111" Demo.east "pl-4" "" ["10.1.0.0/16"] (Some "cf-v4") "111" []) = [] ++ ext /\
    forall c, In c ext -> reconcile_call_ok "pl-4" "Cloudflare IP" c = true.
Proof.
  destruct (apply_delta "111" Demo.east "pl-4" "" ["10.1.0.0/16"] (Some "cf-v4") "111" [])
    as [r tr'] eqn:E.
  destruct (apply_delta_addressing "111" Demo.east "pl-4" "" ["10.1.0.0/16"] (Some "cf-v4") "111"
              [] r tr' E) as (ext & -> & H).
  exists ext. split; [reflexivity|]. exact H.
Defined.

(** [handler] addresses every entries read and every modify call to the
    configured [PL_V4_ID] or [PL_V6_ID], or to the empty id when that
    variable is unset or empty, and every entry it adds carries the
    description [DESCRIPTION.strip()[:100]] (["Cloudflare IP"] when that is
    empty).  So when neither id is set, as for lists configured by name
    only, every entries read and modify call uses the id [""]. *)
Theorem handler_addressing g cfg v4 v6 tr r tr' :
  handler g cfg v4 v6 tr = (r, tr') ->
  exists ext, tr' = tr ++ ext /\
    let d := entry_description (strip_trunc (str_or (DESCRIPTION cfg) DESCR_DEFAULT)) in
    (forall c, In c ext ->
      reconcile_call_ok (str_or (PL_V4_ID cfg) "") d c = true \/
      reconcile_call_ok (str_or (PL_V6_ID cfg) "") d c = true) /\
    (ostr_truthy (PL_V4_ID cfg) = false -> ostr_truthy (PL_V6_ID cfg) = false ->
     forall c, In c ext -> reconcile_call_ok "" d c = true).
Proof.
  intros H.
  set (d := entry_description (strip_trunc (str_or (DESCRIPTION cfg) DESCR_DEFAULT))).
  set (P := fun c => reconcile_call_ok (str_or (PL_V4_ID cfg) "") d c
                     || reconcile_call_ok (str_or (PL_V6_ID cfg) "") d c).
  assert (S : Safe P any_exn (handler g cfg v4 v6)).
  { unfold handler. cbv zeta.
    apply safe_bind; [|intros res4; apply safe_bind; [|intros res6; apply safe_ret]].
    - destruct (ostr_truthy (PL_V4_ID cfg) || ostr_truthy (PL_V4_NAME cfg)); [|apply safe_ret].
      apply safe_bind; [|intros; apply safe_ret].
      eapply safe_weaken; [| |apply (safe_a_apply_delta _ d); reflexivity].
      + intros c Hc. unfold P. rewrite Hc. reflexivity.
      + auto.
    - destruct (ostr_truthy (PL_V6_ID cfg) || ostr_truthy (PL_V6_NAME cfg)); [|apply safe_ret].
      apply safe_bind; [|intros; apply safe_ret].
      eapply safe_weaken; [| |apply (safe_a_apply_delta _ d); reflexivity].
      + intros c Hc. unfold P. rewrite Hc. apply orb_true_r.
      + auto. }
  destruct (S tr r tr' H) as [(ext & -> & Hext) _].
  rewrite forallb_forall in Hext.
  assert (P1 : forall c, In c ext ->
      reconcile_call_ok (str_or (PL_V4_ID cfg) "") d c = true \/
      reconcile_call_ok (str_or (PL_V6_ID cfg) "") d c = true).
  { intros c Hc. specialize (Hext c Hc). unfold P in Hext. apply orb_true_iff in Hext. exact Hext. }
  exists ext. split; [reflexivity|]. cbv zeta. fold d. split; [exact P1|].
  intros H4 H6 c Hc.
  assert (E : forall o, ostr_truthy o = false -> str_or o "" = "").
  { intros [s|] Ho; [|reflexivity]. simpl in *. rewrite Ho. reflexivity. }
  rewrite <- (E _ H4) at 1. destruct (P1 c Hc) as [Hc4|Hc6]; [exact Hc4|].
  rewrite (E _ H4). rewrite (E _ H6) in Hc6. exact Hc6.
Qed.

(** A name-only configuration on [Demo.east]: the entries read goes to
    the id [""]; with [PL_V4_ID] set and a description padded with a
    separator character and a space, the entries added by the modify call
    carry the stripped text ["foo"]. *)
Lemma handler_addressing_witness :
  (exists ext,
    handler (mkGlobals "111" "us-east-1" (fun _ => Demo.east))
      (mkConfig None None None (Some "cf-v4") None None None) ["10.1.0.0/16"] [] []
    = (Err (ClientError "An error occurred (InvalidPrefixListID.NotFound)"), [] ++ ext) /\
    In (CGetEntries "us-east-1" "" None) ext /\
    forall c, In c ext -> reconcile_call_ok "" "Cloudflare IP" c = true) /\
  (exists r ext,
    handler (mkGlobals "111" "us-east-1" (fun _ => Demo.east))
      (mkConfig (Some (String (ascii_of_nat 28) "foo ")) (Some "pl-4") None None None None None)
      ["10.1.0.0/16"] [] []
    = (r, [] ++ ext) /\
    (exists kw, In (CModify "us-east-1" kw) ext /\ MAddEntries kw <> None) /\
    forall c, In c ext -> reconcile_call_ok "pl-4" "foo" c = true \/ reconcile_call_ok "" "foo" c = true).
Proof.
  split.
  - destruct (handler (mkGlobals "111" "us-east-1" (fun _ => Demo.east))
                (mkConfig None None None (Some "cf-v4") None None None) ["10.1.0.0/16"] [] [])
      as [r tr'] eqn:E.
    destruct (handler_addressing (mkGlobals "111" "us-east-1" (fun _ => Demo.east))
                (mkConfig None None None (Some "cf-v4") None None None) ["10.1.0.0/16"] [] [] r tr' E)
      as (ext & -> & _ & H).
    exists ext. vm_compute in E. injection E as Er Et. subst r.
    split; [reflexivity|]. split; [rewrite <- Et; simpl; tauto|]. exact (H eq_refl eq_refl).
  - destruct (handler (mkGlobals "111" "us-east-1" (fun _ => Demo.east))
                (mkConfig (Some (String (ascii_of_nat 28) "foo ")) (Some "pl-4") None None None None None)
                ["10.1.0.0/16"] [] [])
      as [r tr'] eqn:E.
    destruct (handler_addressing (mkGlobals "111" "us-east-1" (fun _ => Demo.east))
                (mkConfig (Some (String (ascii_of_nat 28) "foo ")) (Some "pl-4") None None None None None)
                ["10.1.0.0/16"] [] [] r tr' E)
      as (ext & -> & H & _).
    exists r, ext. split; [reflexivity|]. split.
    + vm_compute in E. injection E as Er Et. rewrite <- Et.
      eexists. split; [simpl; tauto|]. discriminate.
    + exact H.
Defined.

(** ** [get_pl_entries] and [_find_pl] *)

Lemma set_add_no_empty (l : list string) (x : string) :
  ~ In "" l -> str_truthy x = true -> ~ In "" (set_add l x).
Proof.
  intros Hl Hx H. unfold set_add in H. destruct (str_mem x l); [exact (Hl H)|].
  apply in_app_or in H as [H|[H|[]]]; [exact (Hl H)|].
  subst x. discriminate.
Qed.

Lemma entries_loop_no_empty ec2 id fuel token have tr r tr1 :
  ~ In "" have -> entries_loop ec2 id fuel token have tr = (Ok r, tr1) -> ~ In "" r.
Proof.
  revert token have tr. induction fuel as [|f IH]; intros token have tr Hne H; simpl in H.
  - discriminate.
  - unfold bind, ec2_call in H.
    destruct (get_managed_prefix_list_entries ec2 tr id _) as [resp|msg]; [|discriminate].
    assert (Hne' : ~ In "" (fold_left (fun h e => match Cidr e with
                                                  | Some c => if str_truthy c then set_add h c else h
                                                  | None => h end)
                                       (list_or (Entries resp) []) have)).
    { generalize (list_or (Entries resp) []). intros es. clear H. revert have Hne.
      induction es as [|e es IHes]; intros have Hne; simpl; [exact Hne|].
      apply IHes. destruct (Cidr e) as [c|]; [|exact Hne].
      destruct (str_truthy c) eqn:Ec; [apply set_add_no_empty|]; assumption. }
    destruct (ostr_truthy (EntriesNextToken resp)).
    + eapply IH; [exact Hne'|exact H].
    + inversion H; subst. exact Hne'.
Qed.

Lemma fold_cidrs_In (es : list entry) (have : list string) (x : string) :
  In x (fold_left (fun h e => match Cidr e with
                              | Some c => if str_truthy c then set_add h c else h
                              | None => h
                              end) es have)
  <-> In x have \/ exists e, In e es /\ Cidr e = Some x /\ str_truthy x = true.
Proof.
  revert have. induction es as [|e es IH]; intros have; simpl.
  - split; [auto|]. intros [H|(e & [] & _)]. exact H.
  - rewrite IH. split.
    + intros [H|(e' & He' & Hc & Ht)]; [|right; exists e'; auto].
      destruct (Cidr e) as [c|] eqn:Ec; [|left; exact H].
      destruct (str_truthy c) eqn:Et; [|left; exact H].
      apply set_add_In in H as [-> |H]; [right; exists e; auto|left; exact H].
    + intros [H|(e' & [<-|He'] & Hc & Ht)].
      * left. destruct (Cidr e) as [c|]; [|exact H].
        destruct (str_truthy c); [apply set_add_In; right|]; exact H.
      * left. rewrite Hc, Ht. apply set_add_In. left. reflexivity.
      * right. exists e'. auto.
Qed.

(** The entry pages loop reads only pages of [id], and collects exactly the
    non-empty CIDRs of the entries of the pages it reads. *)
Lemma entries_loop_members ec2 id fuel : forall token have tr r tr1,
  entries_loop ec2 id fuel token have tr = (Ok r, tr1) ->
  exists ext, tr1 = tr ++ ext /\
    (forall c, In c ext -> exists tok, c = CGetEntries (region_name ec2) id tok) /\
    (forall x, In x r <-> In x have \/ cidr_read ec2 id tr ext x).
Proof.
  induction fuel as [|f IH]; intros token have tr r tr1 H; simpl in H; [discriminate|].
  unfold bind, ec2_call in H.
  destruct (get_managed_prefix_list_entries ec2 tr id (if ostr_truthy token then token else None))
    as [resp|msg] eqn:Eg; [|discriminate].
  set (tok := if ostr_truthy token then token else None) in *.
  destruct (ostr_truthy (EntriesNextToken resp)).
  - destruct (IH _ _ _ _ _ H) as (ext & -> & Hc & Hm).
    exists (CGetEntries (region_name ec2) id tok :: ext).
    split; [rewrite <- app_assoc; reflexivity|]. split.
    + intros c [<-|Hin]; [exists tok; reflexivity|exact (Hc c Hin)].
    + intros x. rewrite Hm, fold_cidrs_In. unfold cidr_read. split.
      * intros [[Hh|(e & He & Hce & Ht)]|(k & tk & rs & e & Hk & Hg & He & Hce & Ht)].
        -- left. exact Hh.
        -- right. exists 0%nat, tok, resp, e. simpl. rewrite app_nil_r. auto.
        -- right. exists (S k), tk, rs, e. simpl. rewrite <- app_assoc in Hg. simpl in Hg. auto.
      * intros [Hh|(k & tk & rs & e & Hk & Hg & He & Hce & Ht)].
        -- left. left. exact Hh.
        -- destruct k as [|k].
           ++ simpl in Hk. injection Hk as Htk. subst tk. rewrite app_nil_r, Eg in Hg.
              injection Hg as Hrs. subst rs. left. right. exists e. auto.
           ++ right. exists k, tk, rs, e. simpl in Hk, Hg. rewrite <- app_assoc. simpl. auto.
  - inversion H; subst. exists [CGetEntries (region_name ec2) id tok].
    split; [reflexivity|]. split.
    + intros c [<-|[]]. exists tok. reflexivity.
    + intros x. rewrite fold_cidrs_In. unfold cidr_read. split.
      * intros [Hh|(e & He & Hce & Ht)]; [left; exact Hh|].
        right. exists 0%nat, tok, resp, e. simpl. rewrite app_nil_r. auto.
      * intros [Hh|(k & tk & rs & e & Hk & Hg & He & Hce & Ht)]; [left; exact Hh|].
        destruct k as [|k]; [|destruct k; discriminate].
        simpl in Hk. injection Hk as Htk. subst tk. rewrite app_nil_r, Eg in Hg.
        injection Hg as Hrs. subst rs. right. exists e. auto.
Qed.

(** What [get_pl_entries] returns: the list [p] is located first; the
    version is [p]'s [Version], read as 1 when it is missing or 0, so never
    0; the CIDR set has no duplicate and is exactly the set of non-empty
    [Cidr] values of the entries on the pages of [id] read after [p] was
    located (entries without a [Cidr] or with an empty one left out); and
    no modify call is issued. *)
Theorem get_pl_entries_result acct ec2 id name tr v have m owner tr' :
  get_pl_entries acct ec2 id name tr = (Ok (v, have, m, owner), tr') ->
  v <> 0 /\ NoDup have /\ ~ In "" have /\
  (exists ext, tr' = tr ++ ext /\ forallb not_modify ext = true) /\
  exists p t1 ext,
    _describe_pl_with_retries acct ec2 (Some id) name LOCATE_ATTEMPTS tr = (Ok p, t1) /\
    tr' = t1 ++ ext /\
    (forall c, In c ext -> exists tok, c = CGetEntries (region_name ec2) id tok) /\
    v = z_or (Version p) 1 /\
    (Version p = None \/ Version p = Some 0 -> v = 1) /\
    (forall x, In x have <-> cidr_read ec2 id t1 ext x).
Proof.
  intros H. split; [|split; [exact (get_pl_entries_NoDup _ _ _ _ _ _ _ _ _ _ H)|split]].
  - unfold get_pl_entries, bind in H.
    destruct (_describe_pl_with_retries _ _ _ _ _ tr) as [[p|e] tr2]; [|discriminate].
    destruct (entries_loop ec2 id PAGE_FUEL None [] tr2) as [[h|e] tr3]; [|discriminate].
    inversion H; subst. unfold z_or.
    destruct (Version p) as [z|]; [|discriminate].
    destruct (Z.eqb_spec z 0); [discriminate|assumption].
  - unfold get_pl_entries, bind in H.
    destruct (_describe_pl_with_retries _ _ _ _ _ tr) as [[p|e] tr2]; [|discriminate].
    destruct (entries_loop ec2 id PAGE_FUEL None [] tr2) as [[h|e] tr3] eqn:E; [|discriminate].
    inversion H; subst. exact (entries_loop_no_empty _ _ _ _ _ _ _ _ (fun H0 : In "" [] => H0) E).
  - split; [exact (get_pl_entries_no_modify _ _ _ _ _ _ _ H)|].
    unfold get_pl_entries, bind in H.
    destruct (_describe_pl_with_retries acct ec2 (Some id) name LOCATE_ATTEMPTS tr)
      as [[p|e] t1] eqn:Ed; [|discriminate].
    destruct (entries_loop ec2 id PAGE_FUEL None [] t1) as [[h|e] t2] eqn:E; [|discriminate].
    inversion H; subst.
    destruct (entries_loop_members _ _ _ _ _ _ _ _ E) as (ext & -> & Hc & Hm).
    exists p, t1, ext. split; [reflexivity|]. split; [reflexivity|]. split; [exact Hc|].
    split; [reflexivity|]. split.
    + intros [Hv|Hv]; rewrite Hv; reflexivity.
    + intros x. rewrite Hm. split; [intros [[]|Hr]; exact Hr|intros Hr; right; exact Hr].
Qed.

Lemma get_pl_entries_result_witness :
  (exists v have m owner tr',
    get_pl_entries "111" Demo.east "pl-0" None [] = (Ok (v, have, m, owner), tr') /\ v = 1) /\
  (exists p t1 ext,
    _describe_pl_with_retries "111" Demo.east (Some "pl-4") None LOCATE_ATTEMPTS [] = (Ok p, t1) /\
    cidr_read Demo.east "pl-4" t1 ext "10.0.0.0/8").
Proof.
  split.
  - destruct (get_pl_entries "111" Demo.east "pl-0" None []) as [r tr'] eqn:E.
    assert (Hr : r = Ok (1, [], 0, "111")) by (vm_compute in E; injection E as <- _; reflexivity).
    subst r. exists 1, [], 0, "111", tr'. split; [reflexivity|].
    destruct (get_pl_entries_result "111" Demo.east "pl-0" None [] 1 [] 0 "111" tr' E)
      as (_ & _ & _ & _ & p & t1 & ext & Hd & _ & _ & _ & Hv & _).
    apply Hv. left. vm_compute in Hd. injection Hd as <- _. reflexivity.
  - destruct (get_pl_entries "111" Demo.east "pl-4" None []) as [r tr'] eqn:E.
    assert (Hr : r = Ok (3, ["10.0.0.0/8"], 2, "111"))
      by (vm_compute in E; injection E as <- _; reflexivity).
    subst r.
    destruct (get_pl_entries_result "111" Demo.east "pl-4" None [] 3 ["10.0.0.0/8"] 2 "111" tr' E)
      as (_ & _ & _ & _ & p & t1 & ext & Hd & _ & _ & _ & _ & Hm).
    exists p, t1, ext. split; [exact Hd|]. apply Hm. left. reflexivity.
Defined.

(** The direct lookup of [_find_pl]: with a non-empty id, the first record
    of the id-filtered [describe_managed_prefix_lists] answer is returned
    after that one call, without a check that it carries the id asked
    for. *)
Theorem find_pl_direct ec2 id name tr pg p rest :
  str_truthy id = true ->
  describe_managed_prefix_lists ec2 tr (Some [id]) None = Resp pg ->
  _pls pg = p :: rest ->
  _find_pl ec2 (Some id) name tr
  = (Ok (Some p), tr ++ [CDescribeManaged (region_name ec2) (Some [id]) None]).
Proof.
  intros Hid Hd Hp. unfold _find_pl, _describe_managed_pls, try_client, ec2_call, bind, ret.
  cbn [ostr_truthy option_map]. rewrite Hid. cbv beta iota. rewrite Hd. cbv beta iota.
  rewrite Hp. reflexivity.
Qed.

Lemma find_pl_direct_witness :
  let other := Demo.mk_pl "pl-9" "other" None "222" (Some 1) in
  let ec2 := mkClient "us-east-1" (fun _ _ _ => Resp (mkPage (Some [other]) None None))
               (fun _ _ => Resp (mkPage None (Some []) None))
               (fun _ _ _ => Fail "An error occurred (InvalidPrefixListID.NotFound)")
               Demo.bump in
  _find_pl ec2 (Some "pl-4") None [] = (Ok (Some other), [CDescribeManaged "us-east-1" (Some ["pl-4"]) None]).
Proof.
  intros other ec2.
  apply (find_pl_direct ec2 "pl-4" None [] (mkPage (Some [other]) None None) other []);
    reflexivity.
Defined.
